(** * Topological indices of molecular graphs

    A shallow embedding of [drug_indices/indices.py]: the degree-based
    indices of [calculate_indices], the batch loop of
    [calculate_and_return_all_drugs] and the row selection of
    [save_results_to_dataframe], together with the part of
    [networkx.Graph] and of Python's [float] that this code runs on. *)

From Stdlib Require Import Ascii.
From Stdlib Require Import ZArith List Bool Lia.
From Stdlib Require Import Floats.SpecFloat.
From stdpp Require Import base option list strings gmap sorting.

Local Open Scope Z_scope.

(** ** Exceptions

    The Python exceptions that the arithmetic and the dictionary accesses of
    [indices.py] can raise.  A computation either returns a value or raises. *)

Inductive py_exception : Type :=
  | ZeroDivisionError
  | ValueError
  | KeyError.

Inductive result (A : Type) : Type :=
  | Ok (a : A)
  | Raise (e : py_exception).

Arguments Ok {A} a.
Arguments Raise {A} e.

Global Instance result_ret : MRet result := fun A a => Ok a.
Global Instance result_bind : MBind result := fun A B f c =>
  match c with
  | Ok a => f a
  | Raise e => Raise e
  end.

(** ** Python floats: IEEE 754 binary64

    Floats are the binary64 numbers of [SpecFloat], with its correctly
    rounded (to nearest, ties to even) operations.  A result beyond the
    binary64 range is an infinity here; where Python raises [OverflowError]
    instead (int to float, int / int, [**]), a degree would have to exceed
    10^100, more than the entries a list can hold, and that case is left
    out of the model. *)

Module Float64.

Definition prec : Z := 53.
Definition emax : Z := 1024.

Definition float : Type := spec_float.

Definition add : float -> float -> float := SFadd prec emax.
Definition div : float -> float -> float := SFdiv prec emax.
Definition sqrt : float -> float := SFsqrt prec emax.

(** [float(n)] for a Python int. *)
Definition of_int (n : Z) : float := binary_normalize prec emax n 0 false.

(** An int as an exact, not normalised, operand of a division. *)
Definition exact_int (n : Z) : float :=
  match n with
  | Z0 => S754_zero false
  | Zpos p => S754_finite false p 0
  | Zneg p => S754_finite true p 0
  end.

(** The literals of the source. *)
Definition zero : float := S754_zero false.     (* 0.0 *)
Definition one : float := of_int 1.             (* 1.0 *)
Definition two : float := of_int 2.             (* 2.0 *)

(** The float literal [a/b], for decimal literals such as [1.235]. *)
Definition lit (a b : Z) : float := div (exact_int a) (exact_int b).

(** [x + n], [x] a float and [n] an int: the int is converted first. *)
Definition add_int (x : float) (n : Z) : float := add x (of_int n).

(** [x / n], [x] a float and [n] an int. *)
Definition truediv_float_int (x : float) (n : Z) : result float :=
  if n =? 0 then Raise ZeroDivisionError else Ok (div x (of_int n)).

(** [a / b] on two ints: the correctly rounded quotient. *)
Definition truediv_int_int (a b : Z) : result float :=
  if b =? 0 then Raise ZeroDivisionError else Ok (div (exact_int a) (exact_int b)).

(** [x ** 3]: the cube of [x], rounded once.  CPython computes it with the
    C library's [pow], which is exact where the cube is a float (as at [2.0],
    the only argument at which a theorem below gives the value of A) but may
    differ from the correctly rounded cube in the last bit elsewhere. *)
Definition pow3 (x : float) : float :=
  match x with
  | S754_finite s m e => binary_round prec emax s (m * m * m)%positive (3 * e)
  | _ => SFmul prec emax x (SFmul prec emax x x)
  end.

(** [math.sqrt]: a negative argument is a domain error. *)
Definition math_sqrt (x : float) : result float :=
  match x with
  | S754_finite true _ _ | S754_infinity true => Raise ValueError
  | _ => Ok (sqrt x)
  end.

End Float64.

Import Float64.

(** ** Insertion-ordered dictionaries

    A Python [dict] keeps its keys in insertion order; assigning to a key
    that is present keeps its position. *)

Section odict.
Context {K V : Type} `{EqDecision K}.

Definition odict : Type := list (K * V).

Fixpoint od_get (k : K) (d : odict) : option V :=
  match d with
  | [] => None
  | (k', v) :: d' => if decide (k = k') then Some v else od_get k d'
  end.

Fixpoint od_set (k : K) (v : V) (d : odict) : odict :=
  match d with
  | [] => [(k, v)]
  | (k', v') :: d' =>
      if decide (k = k') then (k', v) :: d' else (k', v') :: od_set k v d'
  end.

Definition od_keys (d : odict) : list K := d.*1.

Definition od_mem (k : K) (d : odict) : bool := bool_decide (k ∈ od_keys d).

(** [d[k]], which raises [KeyError] on a missing key. *)
Definition od_item (k : K) (d : odict) : result V :=
  match od_get k d with
  | Some v => Ok v
  | None => Raise KeyError
  end.
End odict.

Arguments odict : clear implicits.

(** ** [networkx.Graph]

    An undirected graph without parallel edges: [_adj] maps every node to the
    dictionary of its neighbours.  The edge attribute dictionaries are always
    empty here, so a neighbour dictionary is its list of keys. *)

Definition node : Type := Z.

Record Graph : Type := { adj : odict node (list node) }.

Definition empty_graph : Graph := {| adj := [] |}.

(** [if n not in self._adj: self._adj[n] = {}] *)
Definition add_node (n : node) (a : odict node (list node)) : odict node (list node) :=
  if od_mem n a then a else od_set n [] a.

(** [nbrs[v] = datadict] on the keys of a neighbour dictionary. *)
Definition key_set (v : node) (nbrs : list node) : list node :=
  if bool_decide (v ∈ nbrs) then nbrs else nbrs ++ [v].

(** [self._adj[u][v] = datadict] *)
Definition add_nbr (u v : node) (a : odict node (list node)) : odict node (list node) :=
  match od_get u a with
  | Some nbrs => od_set u (key_set v nbrs) a
  | None => a
  end.

Definition add_edge (G : Graph) (e : node * node) : Graph :=
  let '(u, v) := e in
  {| adj := add_nbr v u (add_nbr u v (add_node v (add_node u (adj G)))) |}.

Definition add_edges_from (G : Graph) (ebunch : list (node * node)) : Graph :=
  foldl add_edge G ebunch.

(** [G.degree[n]]: [len(nbrs) + (n in nbrs)]. *)
Definition degree (G : Graph) (n : node) : result Z :=
  nbrs ← od_item n (adj G);
  mret (Z.of_nat (length nbrs) + (if bool_decide (n ∈ nbrs) then 1 else 0)).

(** [G.edges()]: every edge once, from the node that comes first in [_adj]. *)
Fixpoint edges_from (seen : list node) (a : odict node (list node)) : list (node * node) :=
  match a with
  | [] => []
  | (n, nbrs) :: a' =>
      ((fun nbr => (n, nbr)) <$> filter (fun nbr => nbr ∉ seen) nbrs)
        ++ edges_from (n :: seen) a'
  end.

Definition edges (G : Graph) : list (node * node) := edges_from [] (adj G).

(** The graph of an edge list: [G = nx.Graph(); G.add_edges_from(edges)]. *)
Definition build (es : list (node * node)) : Graph := add_edges_from empty_graph es.

(** ** [calculate_indices] *)

Definition index_names : list string :=
  ["M1"; "M2"; "mM2"; "FG"; "ISI"; "H"; "SC"; "HM"; "A"; "SDD"]%string.

Definition IndexVector : Type := odict string float.

Definition initial_indices : IndexVector := (fun k => (k, zero)) <$> index_names.

(** [indices[k] += x] *)
Definition iadd (k : string) (x : float) (indices : IndexVector) : result IndexVector :=
  old ← od_item k indices;
  mret (od_set k (add old x) indices).

(** [indices[k] += n] for an int [n] *)
Definition iadd_int (k : string) (n : Z) (indices : IndexVector) : result IndexVector :=
  old ← od_item k indices;
  mret (od_set k (add_int old n) indices).

(** Lines 52 to 64: what one edge adds, from the degrees of its two ends. *)
Definition edge_update (dx dy : Z) (indices : IndexVector) : result IndexVector :=
  let sum_deg := dx + dy in
  indices ← iadd_int "M1" sum_deg indices;
  indices ← iadd_int "M2" (dx * dy) indices;
  t ← (if bool_decide (dx * dy ≠ 0) then truediv_float_int one (dx * dy) else mret zero);
  indices ← iadd "mM2" t indices;
  indices ← iadd_int "FG" (dx ^ 2 + dy ^ 2) indices;
  t ← (if bool_decide (sum_deg ≠ 0) then truediv_int_int (dx * dy) sum_deg else mret zero);
  indices ← iadd "ISI" t indices;
  t ← (if bool_decide (sum_deg ≠ 0) then truediv_float_int two sum_deg else mret zero);
  indices ← iadd "H" t indices;
  t ← (if bool_decide (sum_deg ≠ 0)
       then q ← truediv_float_int one sum_deg; math_sqrt q
       else mret zero);
  indices ← iadd "SC" t indices;
  indices ← iadd_int "HM" (sum_deg ^ 2) indices;
  indices ← (if bool_decide (sum_deg ≠ 2)
             then q ← truediv_int_int (dx * dy) (sum_deg - 2); iadd "A" (pow3 q) indices
             else mret indices);
  t1 ← (if bool_decide (dy ≠ 0) then truediv_int_int dx dy else mret zero);
  t2 ← (if bool_decide (dx ≠ 0) then truediv_int_int dy dx else mret zero);
  iadd "SDD" (add t1 t2) indices.

(** The body of the loop, for the edge [(x, y)]. *)
Definition edge_step (G : Graph) (indices : IndexVector) (e : node * node)
  : result IndexVector :=
  let '(x, y) := e in
  dx ← degree G x;
  dy ← degree G y;
  edge_update dx dy indices.

Fixpoint for_edges (G : Graph) (indices : IndexVector) (es : list (node * node))
  : result IndexVector :=
  match es with
  | [] => mret indices
  | e :: es' => indices' ← edge_step G indices e; for_edges G indices' es'
  end.

Definition calculate_indices (G : Graph) : result IndexVector :=
  for_edges G initial_indices (edges G).

(** ** [round(v, 3)]

    Python rounds a float to three decimals on its exact binary value: the
    nearest multiple of 1/1000, a tie going to the even multiple, converted
    back to the nearest float.  Infinities and NaN are returned unchanged. *)

(** The integer nearest to [1000 * m * 2^e], ties to even. *)
Definition round_half_even_milli (m : positive) (e : Z) : Z :=
  let num := 1000 * Z.pos m * 2 ^ Z.max e 0 in
  let den := 2 ^ Z.max (- e) 0 in
  let q := num / den in
  let r := num mod den in
  match 2 * r ?= den with
  | Lt => q
  | Gt => q + 1
  | Eq => if Z.even q then q else q + 1
  end.

Definition round3 (v : float) : float :=
  match v with
  | S754_finite s m e =>
      match round_half_even_milli m e with
      | Zpos n => div (S754_finite s n 0) (exact_int 1000)
      | _ => S754_zero s
      end
  | _ => v
  end.

(** [{k: round(v, 3) for k, v in raw.items()}] *)
Definition round_items (raw : IndexVector) : IndexVector :=
  (fun kv => (kv.1, round3 kv.2)) <$> raw.

(** ** [calculate_and_return_all_drugs] *)

(** What the storage document holds for a name: a list of edges, each a
    two-element array of atom indices, or an error object such as
    [{"error": "edge relations not found"}]. *)
Definition ErrorMarker : Type := odict string string.

Inductive entry : Type :=
  | EdgeList (es : list (node * node))
  | ErrorEntry (marker : ErrorMarker).

(** [{"drug": name, "indices": rounded}] or [{"drug": name, "error": edges}];
    the error is [None] when the name is not in the document. *)
Inductive MoleculeRecord : Type :=
  | Success (drug : string) (indices : IndexVector)
  | Failure (drug : string) (error : option ErrorMarker).

Definition drug (r : MoleculeRecord) : string :=
  match r with
  | Success d _ | Failure d _ => d
  end.

(** [sorted(drug_list)]: ascending in the code point order of [str]. *)
Definition sorted (l : list string) : list string := merge_sort String.le l.

(** The body of the loop over the names: the record appended for [name]. *)
Definition drug_record (data : gmap string entry) (name : string)
  : result MoleculeRecord :=
  match data !! name with
  | Some (EdgeList es) =>
      let G := add_edges_from empty_graph es in
      raw ← calculate_indices G;
      let rounded := round_items raw in
      mret (Success name rounded)
  | Some (ErrorEntry marker) => mret (Failure name (Some marker))
  | None => mret (Failure name None)
  end.

Fixpoint for_names (data : gmap string entry) (results : list MoleculeRecord)
    (names : list string) : result (list MoleculeRecord) :=
  match names with
  | [] => mret results
  | name :: names' =>
      r ← drug_record data name;
      for_names data (results ++ [r]) names'
  end.

Definition calculate_and_return_all_drugs (drug_list : list string)
    (data : gmap string entry) : result (list MoleculeRecord) :=
  for_names data [] (sorted drug_list).

(** ** [save_results_to_dataframe]

    The frame that [pd.DataFrame(rows, index=labels)] builds from a list of
    dictionaries: the columns are the keys in the order in which they first
    appear, and a key missing from a row gives NaN.  The function returns
    this frame; writing it to the spreadsheet and printing are output only. *)

Record DataFrame : Type :=
  { df_index : list string;
    df_columns : list string;
    df_values : list (list float) }.

Definition first_seen (cols : list string) (k : string) : list string :=
  if bool_decide (k ∈ cols) then cols else cols ++ [k].

Definition frame_columns (rows : list IndexVector) : list string :=
  foldl first_seen [] (rows ≫= od_keys).

Definition frame_row (cols : list string) (row : IndexVector) : list float :=
  (fun c => default S754_nan (od_get c row)) <$> cols.

Definition make_frame (rows : list IndexVector) (labels : list string) : DataFrame :=
  let cols := frame_columns rows in
  {| df_index := labels; df_columns := cols; df_values := frame_row cols <$> rows |}.

(** ["indices" in r] *)
Definition has_indices (r : MoleculeRecord) : bool :=
  match r with
  | Success _ _ => true
  | Failure _ _ => false
  end.

(** [r["indices"]], read only on the records that have the key. *)
Definition indices_of (r : MoleculeRecord) : IndexVector :=
  match r with
  | Success _ ix => ix
  | Failure _ _ => []
  end.

Definition save_results_to_dataframe (results : list MoleculeRecord) : DataFrame :=
  let valid := filter (fun r => has_indices r = true) results in
  make_frame (indices_of <$> valid) (drug <$> valid).

(** ** [drug_indices/edges.py]

    Names are the UTF-8 bytes of a Python [str].  [urllib.parse.quote] with
    its default [safe='/'] keeps the letters, the digits and [_.-~/], and
    writes every other byte as [%XX] with upper-case hexadecimal digits. *)

Definition always_safe (c : Ascii.ascii) : bool :=
  let n := Ascii.N_of_ascii c in
  ((65 <=? n) && (n <=? 90) || (97 <=? n) && (n <=? 122) || (48 <=? n) && (n <=? 57)
   || (n =? 95) || (n =? 46) || (n =? 45) || (n =? 126))%N.

Definition hex_digit (d : N) : Ascii.ascii :=
  Ascii.ascii_of_N (if (d <? 10)%N then 48 + d else 55 + d)%N.

(** The value of a hexadecimal digit, the inverse of [hex_digit]. *)
Definition hex_value (c : Ascii.ascii) : N :=
  let n := Ascii.N_of_ascii c in (if n <? 58 then n - 48 else n - 55)%N.

Definition quoter (c : Ascii.ascii) : string :=
  if always_safe c || Ascii.eqb c "/"%char
  then String c EmptyString
  else String "%"%char (String (hex_digit (Ascii.N_of_ascii c / 16))
                     (String (hex_digit (Ascii.N_of_ascii c mod 16)) EmptyString)).

(** A character that [quote] may write: a kept one or the percent sign. *)
Definition url_safe (c : Ascii.ascii) : bool :=
  always_safe c || Ascii.eqb c "/"%char || Ascii.eqb c "%"%char.

Fixpoint quote (s : string) : string :=
  match s with
  | EmptyString => EmptyString
  | String c s' => (quoter c ++ quote s')%string
  end.

(** [c in s] for a single character [c]. *)
Fixpoint contains (c : Ascii.ascii) (s : string) : bool :=
  match s with
  | EmptyString => false
  | String c' s' => Ascii.eqb c c' || contains c s'
  end.

Definition encode_name (name : string) : string :=
  if contains " "%char name then quote name else name.

(** The address that [get_edge_list_from_pubchem] requests. *)
Definition pubchem_url (drug_name : string) : string :=
  let url_name := encode_name drug_name in
  ("https://pubchem.ncbi.nlm.nih.gov/rest/pug/compound/name/" ++ url_name
     ++ "/property/SMILES/TXT")%string.

(** The dictionary that [save_edge_relations_to_json] fills before writing
    it.  What [get_edge_list_from_pubchem] returns comes from the network, so
    the loop is given the lookups it makes: each name of [drug_list], in
    order, with the result of its lookup ([None] on failure). *)
Definition not_found : ErrorMarker := [("error", "edge relations not found")]%string.

(** The value stored for the result of a lookup. *)
Definition entry_of (result : option (list (node * node))) : entry :=
  match result with
  | None => ErrorEntry not_found
  | Some es => EdgeList es
  end.

Definition store_result (edge_relations : gmap string entry)
    (lookup : string * option (list (node * node))) : gmap string entry :=
  let '(name, result) := lookup in
  match result with
  | None => <[name := ErrorEntry not_found]> edge_relations
  | Some es => <[name := EdgeList es]> edge_relations
  end.

Definition edge_relations_of (lookups : list (string * option (list (node * node))))
  : gmap string entry :=
  foldl store_result ∅ lookups.

(** ** Counting over an edge list *)

(** The number of endpoint occurrences of [n] in an edge list: every entry
    counts, once for each of its ends that is [n]. *)
Definition endpoint_occurrences (n : node) (es : list (node * node)) : Z :=
  foldr (fun e acc =>
           (if decide (e.1 = n) then 1 else 0) + (if decide (e.2 = n) then 1 else 0) + acc)
        0 es.

(** The other ends of the entries that touch [n], with repetitions. *)
Definition neighbours (n : node) (es : list (node * node)) : list node :=
  es ≫= (fun e => (if decide (e.1 = n) then [e.2] else [])
                    ++ (if decide (e.2 = n) then [e.1] else [])).

(** An entry written in one direction or the other. *)
Definition orient (flip : bool) (e : node * node) : node * node :=
  if flip then (e.2, e.1) else e.

(** [n] is an end of some entry. *)
Definition endpoint (n : node) (es : list (node * node)) : Prop :=
  exists e, e ∈ es /\ (n = e.1 \/ n = e.2).

(** ** Predicates used in the statements *)

(** [x] is in the neighbour dictionary of [n]. *)
Definition adjacent (a : odict node (list node)) (n x : node) : Prop :=
  exists nbrs, od_get n a = Some nbrs /\ x ∈ nbrs.

(** Keys are unique, and so are the keys of every neighbour dictionary. *)
Definition adj_nodup (a : odict node (list node)) : Prop :=
  NoDup (od_keys a) /\ forall n nbrs, od_get n a = Some nbrs -> NoDup nbrs.

(** The sign bit of a float is clear. *)
Definition not_negative (x : float) : Prop :=
  match x with
  | S754_zero s | S754_infinity s | S754_finite s _ _ => s = false
  | S754_nan => True
  end.

(** The adjacency of a graph whose nodes are renamed by [f]. *)
Definition rename_adj (f : node -> node) (a : odict node (list node))
  : odict node (list node) :=
  (fun e : node * list node => (f e.1, f <$> e.2)) <$> (a : list (node * list node)).

(** A float that is a number, not NaN, and is not negative: [0.0], a
    positive finite number or [inf]. *)
Definition nonneg_number (x : float) : Prop :=
  match x with
  | S754_zero false | S754_finite false _ _ | S754_infinity false => True
  | _ => False
  end.

(** The ten keys, in order, each with a non-negative number. *)
Definition nonneg_indices (indices : IndexVector) : Prop :=
  od_keys indices = index_names /\ Forall (fun kv => nonneg_number kv.2) indices.

(** What the record for [name] looks like, given the stored entry. *)
Definition record_matches (data : gmap string entry) (r : MoleculeRecord) : Prop :=
  match data !! drug r with
  | Some (EdgeList es) =>
      exists raw, calculate_indices (build es) = Ok raw
                  /\ od_keys raw = index_names
                  /\ r = Success (drug r) (round_items raw)
  | Some (ErrorEntry marker) => r = Failure (drug r) (Some marker)
  | None => r = Failure (drug r) None
  end.

(** A document with one edge list and one error object. *)
Definition example_data : gmap string entry :=
  {[ "zanubrutinib"%string := EdgeList [(0, 1); (1, 2)];
     "afatinib"%string := ErrorEntry [("error", "edge relations not found")]%string ]}.

(** * Properties *)

(** ** The exception monad *)

Lemma bind_Ok {A B} (f : A -> result B) (a : A) : (Ok a ≫= f) = f a.
Proof. reflexivity. Qed.

(** ** Dictionaries *)

Section odict_facts.
Context {K V : Type} `{EqDecision K}.
Implicit Types (d : odict K V) (k : K) (v : V).

Lemma od_get_set_eq k v d : od_get k (od_set k v d) = Some v.
Proof.
  induction d as [|[k' v'] d IH]; simpl.
  - by rewrite decide_True.
  - destruct (decide (k = k')) as [->|Hne]; simpl.
    + by rewrite decide_True.
    + by rewrite decide_False.
Qed.

Lemma od_get_set_ne k k' v d : k ≠ k' -> od_get k' (od_set k v d) = od_get k' d.
Proof.
  intros Hne. induction d as [|[k0 v0] d IH]; simpl.
  - by rewrite decide_False.
  - destruct (decide (k = k0)) as [->|Hk]; simpl.
    + by rewrite !decide_False.
    + by rewrite IH.
Qed.

Lemma od_get_set k k' v d :
  od_get k' (od_set k v d) = if decide (k' = k) then Some v else od_get k' d.
Proof.
  destruct (decide (k' = k)) as [->|Hne].
  - apply od_get_set_eq.
  - by apply od_get_set_ne.
Qed.

Lemma od_get_Some_keys k v d : od_get k d = Some v -> k ∈ od_keys d.
Proof.
  induction d as [|[k' v'] d IH]; simpl; [done|].
  destruct (decide (k = k')) as [->|Hne]; intros Hg.
  - apply list_elem_of_here.
  - apply list_elem_of_further. by apply IH.
Qed.

Lemma od_get_None_keys k d : od_get k d = None <-> k ∉ od_keys d.
Proof.
  induction d as [|[k' v'] d IH]; simpl.
  - split; [intros _; apply not_elem_of_nil | done].
  - rewrite not_elem_of_cons. destruct (decide (k = k')) as [->|Hne].
    + split; [done | by intros [? _]].
    + rewrite IH. tauto.
Qed.

Lemma od_keys_get k d : k ∈ od_keys d -> is_Some (od_get k d).
Proof.
  intros Hin. destruct (od_get k d) eqn:Hg; [by eexists|].
  by apply od_get_None_keys in Hg.
Qed.

Lemma od_mem_get k d : od_mem k d = true <-> is_Some (od_get k d).
Proof.
  unfold od_mem. rewrite bool_decide_eq_true. split.
  - apply od_keys_get.
  - intros [v Hv]. by eapply od_get_Some_keys.
Qed.

Lemma od_keys_set_in k v d : k ∈ od_keys d -> od_keys (od_set k v d) = od_keys d.
Proof.
  induction d as [|[k' v'] d IH]; simpl.
  - by intros ?%elem_of_nil.
  - destruct (decide (k = k')) as [->|Hne]; simpl; [done|].
    intros [?|Hin]%elem_of_cons; [done|]. f_equal. by apply IH.
Qed.

Lemma od_keys_set_notin k v d : k ∉ od_keys d -> od_keys (od_set k v d) = od_keys d ++ [k].
Proof.
  induction d as [|[k' v'] d IH]; simpl; [done|].
  intros [Hne Hnin]%not_elem_of_cons.
  rewrite decide_False by done. simpl. f_equal. by apply IH.
Qed.

Lemma od_set_id k v d : od_get k d = Some v -> od_set k v d = d.
Proof.
  induction d as [|[k' v'] d IH]; simpl; [done|].
  destruct (decide (k = k')) as [->|Hne].
  - by intros [= ->].
  - intros Hg. by rewrite IH.
Qed.

Lemma od_get_elem_of k v d : od_get k d = Some v -> (k, v) ∈ d.
Proof.
  induction d as [|[k' v'] d IH]; simpl; [done|].
  destruct (decide (k = k')) as [->|Hne].
  - intros [= ->]. apply list_elem_of_here.
  - intros Hg. apply list_elem_of_further. by apply IH.
Qed.

Lemma od_elem_of_get k v d : NoDup (od_keys d) -> (k, v) ∈ d -> od_get k d = Some v.
Proof.
  induction d as [|[k' v'] d IH]; simpl.
  - by intros _ ?%elem_of_nil.
  - intros [Hnin Hnd]%NoDup_cons [Heq|Hin]%elem_of_cons.
    + injection Heq as -> ->. by rewrite decide_True.
    + rewrite decide_False; [by apply IH|].
      intros ->. apply Hnin. change k' with ((k', v).1).
      by apply list_elem_of_fmap_2.
Qed.
End odict_facts.

(** ** Building a graph *)

Lemma elem_of_key_set x v nbrs : x ∈ key_set v nbrs <-> x ∈ nbrs \/ x = v.
Proof.
  unfold key_set. case_bool_decide as Hv.
  - split; [by left | intros [?| ->]; done].
  - rewrite elem_of_app, list_elem_of_singleton. tauto.
Qed.

Lemma NoDup_key_set v nbrs : NoDup nbrs -> NoDup (key_set v nbrs).
Proof.
  intros Hnd. unfold key_set. case_bool_decide as Hv; [done|].
  apply NoDup_app. split_and!; [done| |apply NoDup_singleton].
  intros x Hx ->%list_elem_of_singleton. done.
Qed.

Lemma key_set_id v nbrs : v ∈ nbrs -> key_set v nbrs = nbrs.
Proof. intros Hv. unfold key_set. by rewrite bool_decide_eq_true_2. Qed.

Lemma od_get_add_node n m a :
  od_get n (add_node m a) =
    if decide (n = m) then Some (default [] (od_get m a)) else od_get n a.
Proof.
  unfold add_node. destruct (od_mem m a) eqn:Hm.
  - apply od_mem_get in Hm as [nb Hnb].
    destruct (decide (n = m)) as [->|Hne]; [by rewrite Hnb | done].
  - rewrite od_get_set. destruct (decide (n = m)) as [->|Hne]; [|done].
    destruct (od_get m a) eqn:Hg; [|done].
    assert (od_mem m a = true) by (apply od_mem_get; by eexists). congruence.
Qed.

Lemma od_keys_add_node m a :
  od_keys (add_node m a) = if od_mem m a then od_keys a else od_keys a ++ [m].
Proof.
  unfold add_node. destruct (od_mem m a) eqn:Hm; [done|].
  apply od_keys_set_notin. intros Hin.
  unfold od_mem in Hm. by apply bool_decide_eq_false in Hm.
Qed.

Lemma od_get_add_nbr n u v a :
  od_get n (add_nbr u v a) =
    if decide (n = u) then key_set v <$> od_get u a else od_get n a.
Proof.
  unfold add_nbr. destruct (od_get u a) as [nb|] eqn:Hu.
  - rewrite od_get_set. by destruct (decide (n = u)).
  - destruct (decide (n = u)) as [->|]; [by rewrite Hu | done].
Qed.

Lemma od_keys_add_nbr u v a : od_keys (add_nbr u v a) = od_keys a.
Proof.
  unfold add_nbr. destruct (od_get u a) as [nb|] eqn:Hu; [|done].
  apply od_keys_set_in. by eapply od_get_Some_keys.
Qed.

Lemma elem_of_keys_add_node n m a :
  n ∈ od_keys (add_node m a) <-> n ∈ od_keys a \/ n = m.
Proof.
  rewrite od_keys_add_node. destruct (od_mem m a) eqn:Hm.
  - split; [by left|]. intros [?| ->]; [done|].
    unfold od_mem in Hm. by apply bool_decide_eq_true in Hm.
  - rewrite elem_of_app, list_elem_of_singleton. tauto.
Qed.

Lemma NoDup_keys_add_node m a : NoDup (od_keys a) -> NoDup (od_keys (add_node m a)).
Proof.
  intros Hnd. rewrite od_keys_add_node. destruct (od_mem m a) eqn:Hm; [done|].
  unfold od_mem in Hm. apply bool_decide_eq_false in Hm.
  apply NoDup_app. split_and!; [done| |apply NoDup_singleton].
  by intros x Hx ->%list_elem_of_singleton.
Qed.

Lemma adjacent_add_node a m n x : adjacent (add_node m a) n x <-> adjacent a n x.
Proof.
  unfold adjacent. rewrite od_get_add_node.
  destruct (decide (n = m)) as [->|Hne]; [|done].
  destruct (od_get m a) as [nb|] eqn:Hg; simpl.
  - done.
  - split; intros (nb & Hnb & Hx); [|done].
    injection Hnb as <-. by apply elem_of_nil in Hx.
Qed.

Lemma adjacent_add_nbr a u v n x :
  u ∈ od_keys a ->
  adjacent (add_nbr u v a) n x <-> adjacent a n x \/ (n = u /\ x = v).
Proof.
  intros [nb Hnb]%od_keys_get. unfold adjacent. rewrite od_get_add_nbr.
  destruct (decide (n = u)) as [->|Hne].
  - rewrite Hnb. simpl. split.
    + intros (nb' & [= <-] & Hx). apply elem_of_key_set in Hx as [Hx| ->].
      * left. by exists nb.
      * by right.
    + intros [(nb' & [= <-] & Hx) | [_ ->]]; eexists; (split; [done|]);
        apply elem_of_key_set; auto.
  - split; [by left|]. intros [?|[? _]]; done.
Qed.

Lemma adj_nodup_add_node m a : adj_nodup a -> adj_nodup (add_node m a).
Proof.
  intros [Hk Hn]. split; [by apply NoDup_keys_add_node|].
  intros n nbrs. rewrite od_get_add_node.
  destruct (decide (n = m)) as [->|Hne]; [|by apply Hn].
  intros [= <-]. destruct (od_get m a) as [nb|] eqn:Hg; simpl.
  - by eapply Hn.
  - apply NoDup_nil_2.
Qed.

Lemma adj_nodup_add_nbr u v a : adj_nodup a -> adj_nodup (add_nbr u v a).
Proof.
  intros [Hk Hn]. split; [by rewrite od_keys_add_nbr|].
  intros n nbrs. rewrite od_get_add_nbr.
  destruct (decide (n = u)) as [->|Hne]; [|by apply Hn].
  destruct (od_get u a) as [nb|] eqn:Hg; simpl; [|done].
  intros [= <-]. apply NoDup_key_set. by eapply Hn.
Qed.

Lemma adj_nodup_add_edge G e : adj_nodup (adj G) -> adj_nodup (adj (add_edge G e)).
Proof.
  destruct e as [u v]. simpl. intros H.
  by apply adj_nodup_add_nbr, adj_nodup_add_nbr, adj_nodup_add_node, adj_nodup_add_node.
Qed.

Lemma elem_of_keys_add_edge G u v n :
  n ∈ od_keys (adj (add_edge G (u, v))) <-> n ∈ od_keys (adj G) \/ n = u \/ n = v.
Proof.
  simpl. rewrite !od_keys_add_nbr, !elem_of_keys_add_node. tauto.
Qed.

Lemma adjacent_add_edge G u v n x :
  adjacent (adj (add_edge G (u, v))) n x <->
  adjacent (adj G) n x \/ (n = u /\ x = v) \/ (n = v /\ x = u).
Proof.
  simpl. rewrite adjacent_add_nbr.
  2:{ rewrite od_keys_add_nbr, elem_of_keys_add_node. by right. }
  rewrite adjacent_add_nbr.
  2:{ rewrite !elem_of_keys_add_node. left. by right. }
  rewrite !adjacent_add_node. tauto.
Qed.

Lemma add_edges_from_cons G e es :
  add_edges_from G (e :: es) = add_edges_from (add_edge G e) es.
Proof. reflexivity. Qed.

Lemma add_edges_from_app G es1 es2 :
  add_edges_from G (es1 ++ es2) = add_edges_from (add_edges_from G es1) es2.
Proof. apply foldl_app. Qed.

Lemma adj_nodup_add_edges_from es G :
  adj_nodup (adj G) -> adj_nodup (adj (add_edges_from G es)).
Proof.
  revert G. induction es as [|e es IH]; intros G HG; [done|].
  rewrite add_edges_from_cons. apply IH. by apply adj_nodup_add_edge.
Qed.

Lemma elem_of_keys_add_edges_from es G n :
  n ∈ od_keys (adj (add_edges_from G es)) <->
  n ∈ od_keys (adj G) \/ exists e, e ∈ es /\ (n = e.1 \/ n = e.2).
Proof.
  revert G. induction es as [|[u v] es IH]; intros G.
  - split; [by left|]. intros [?|(e & ?%elem_of_nil & _)]; done.
  - rewrite add_edges_from_cons, IH, elem_of_keys_add_edge. split.
    + intros [[?|Huv]|(e & He & Hn)].
      * by left.
      * right. exists (u, v). split; [apply list_elem_of_here | done].
      * right. exists e. split; [by apply list_elem_of_further | done].
    + intros [?|(e & [->|He]%elem_of_cons & Hn)]; [tauto | tauto |].
      right. by exists e.
Qed.

Lemma adjacent_add_edges_from es G n x :
  adjacent (adj (add_edges_from G es)) n x <->
  adjacent (adj G) n x \/ (n, x) ∈ es \/ (x, n) ∈ es.
Proof.
  revert G. induction es as [|[u v] es IH]; intros G.
  - simpl. rewrite !elem_of_nil. tauto.
  - rewrite add_edges_from_cons, IH, adjacent_add_edge, !elem_of_cons.
    split.
    + intros [[?|[[-> ->]|[-> ->]]]|[?|?]]; tauto.
    + intros [?|[[[= -> ->]|?]|[[= -> ->]|?]]]; tauto.
Qed.

Lemma adj_nodup_build es : adj_nodup (adj (build es)).
Proof.
  apply adj_nodup_add_edges_from. split; [apply NoDup_nil_2 | done].
Qed.

Lemma adjacent_build es n x : adjacent (adj (build es)) n x <-> (n, x) ∈ es \/ (x, n) ∈ es.
Proof.
  unfold build. rewrite adjacent_add_edges_from. split; [|tauto].
  intros [(nb & Hnb & _)|?]; [done | tauto].
Qed.

Lemma elem_of_keys_build es n :
  n ∈ od_keys (adj (build es)) <-> exists e, e ∈ es /\ (n = e.1 \/ n = e.2).
Proof.
  unfold build. rewrite elem_of_keys_add_edges_from. split; [|tauto].
  intros [?%elem_of_nil|?]; done.
Qed.

Lemma adjacent_build_sym es n x : adjacent (adj (build es)) n x -> adjacent (adj (build es)) x n.
Proof. rewrite !adjacent_build. tauto. Qed.

(** An edge that is already there, in either direction, changes nothing. *)
Lemma add_edge_present G u v :
  adjacent (adj G) u v -> adjacent (adj G) v u -> add_edge G (u, v) = G.
Proof.
  intros (nu & Hu & Hvu) (nv & Hv & Huv). destruct G as [a]. simpl in *. f_equal.
  assert (add_node u a = a) as ->.
  { unfold add_node. rewrite (proj2 (od_mem_get u a)); [done | by eexists]. }
  assert (add_node v a = a) as ->.
  { unfold add_node. rewrite (proj2 (od_mem_get v a)); [done | by eexists]. }
  assert (add_nbr u v a = a) as ->.
  { unfold add_nbr. rewrite Hu, key_set_id by done. by apply od_set_id. }
  unfold add_nbr. rewrite Hv, key_set_id by done. by apply od_set_id.
Qed.

(** ** Degrees and edges *)

Lemma elem_of_edges_from seen a x y :
  (x, y) ∈ edges_from seen a -> exists nbrs, (x, nbrs) ∈ a /\ y ∈ nbrs /\ y ∉ seen.
Proof.
  revert seen. induction a as [|[n nb] a IH]; intros seen; simpl.
  - by intros ?%elem_of_nil.
  - intros [Hin|Hin]%elem_of_app.
    + apply list_elem_of_fmap in Hin as (z & [= -> ->] & Hz).
      apply list_elem_of_filter in Hz as [Hs Hz].
      exists nb. split_and!; [apply list_elem_of_here | done | done].
    + apply IH in Hin as (nbrs & H1 & H2 & H3). exists nbrs.
      split_and!; [by apply list_elem_of_further | done |].
      intros Hy. apply H3. by apply list_elem_of_further.
Qed.

Lemma edges_adjacent G x y : NoDup (od_keys (adj G)) -> (x, y) ∈ edges G -> adjacent (adj G) x y.
Proof.
  intros Hnd (nbrs & H1 & H2 & _)%elem_of_edges_from.
  exists nbrs. split; [by apply od_elem_of_get | done].
Qed.

Lemma degree_adjacent G x y :
  adjacent (adj G) x y -> exists d, degree G x = Ok d /\ 1 <= d.
Proof.
  intros (nbrs & Hg & Hy). unfold degree, od_item. rewrite Hg. simpl.
  eexists. split; [reflexivity|].
  destruct nbrs; [by apply elem_of_nil in Hy|]. simpl length.
  case_bool_decide; lia.
Qed.

(** Both ends of an edge of a built graph have a degree, which is positive. *)
Lemma edges_build_degrees es x y :
  (x, y) ∈ edges (build es) ->
  exists dx dy, degree (build es) x = Ok dx /\ degree (build es) y = Ok dy /\
                1 <= dx /\ 1 <= dy.
Proof.
  intros Hxy. apply edges_adjacent in Hxy; [|apply adj_nodup_build].
  destruct (degree_adjacent _ _ _ Hxy) as (dx & Hdx & ?).
  destruct (degree_adjacent _ _ _ (adjacent_build_sym _ _ _ Hxy)) as (dy & Hdy & ?).
  by exists dx, dy.
Qed.

(** ** Floats whose sign bit is clear *)

Lemma binary_round_aux_not_negative mx ex lx :
  not_negative (binary_round_aux prec emax false mx ex lx).
Proof.
  unfold binary_round_aux.
  destruct (shr_fexp prec emax mx ex lx) as [mrs e'].
  destruct (shr_fexp prec emax _ e' loc_Exact) as [mrs' e''].
  destruct (shr_m mrs'); [done| |done].
  by destruct (e'' <=? emax - prec).
Qed.

Lemma of_int_not_negative n : 0 <= n -> not_negative (of_int n).
Proof.
  intros Hn. destruct n as [|p|p]; [done| |lia].
  unfold of_int, binary_normalize, binary_round.
  destruct (shl_align _ _ _). apply binary_round_aux_not_negative.
Qed.

Lemma div_not_negative x y :
  not_negative x -> not_negative y -> not_negative (div x y).
Proof.
  unfold div, SFdiv.
  destruct x as [[]|[]| |[] mx ex], y as [[]|[]| |[] my ey];
    cbn -[SFdiv_core_binary binary_round_aux]; try done.
  intros _ _. destruct (SFdiv_core_binary _ _ _ _ _ _) as [[mz ez] lz].
  apply binary_round_aux_not_negative.
Qed.

Lemma math_sqrt_not_negative x : not_negative x -> math_sqrt x = Ok (sqrt x).
Proof. by destruct x as [[]|[]| |[] mx ex]. Qed.

Lemma math_sqrt_reciprocal s : 0 <= s -> math_sqrt (div one (of_int s)) = Ok (sqrt (div one (of_int s))).
Proof.
  intros Hs. apply math_sqrt_not_negative, div_not_negative.
  - by apply of_int_not_negative.
  - by apply of_int_not_negative.
Qed.

(** ** [calculate_indices] returns *)

Lemma iadd_returns k x indices :
  k ∈ od_keys indices ->
  exists indices', iadd k x indices = Ok indices' /\ od_keys indices' = od_keys indices.
Proof.
  intros Hk. unfold iadd, od_item. destruct (od_keys_get _ _ Hk) as [old ->]. simpl.
  eexists. split; [reflexivity|]. by apply od_keys_set_in.
Qed.

Lemma iadd_int_returns k n indices :
  k ∈ od_keys indices ->
  exists indices', iadd_int k n indices = Ok indices' /\ od_keys indices' = od_keys indices.
Proof.
  intros Hk. unfold iadd_int, od_item. destruct (od_keys_get _ _ Hk) as [old ->]. simpl.
  eexists. split; [reflexivity|]. by apply od_keys_set_in.
Qed.

Lemma truediv_float_int_nonzero x n : n ≠ 0 -> truediv_float_int x n = Ok (div x (of_int n)).
Proof. intros Hn. unfold truediv_float_int. by rewrite (proj2 (Z.eqb_neq n 0)). Qed.

Lemma truediv_int_int_nonzero a b :
  b ≠ 0 -> truediv_int_int a b = Ok (div (exact_int a) (exact_int b)).
Proof. intros Hb. unfold truediv_int_int. by rewrite (proj2 (Z.eqb_neq b 0)). Qed.

Ltac step_iadd :=
  match goal with
  | K : od_keys ?ix = index_names |- context [iadd ?k ?x ?ix] =>
      let ix' := fresh "ix" in
      let E := fresh "E" in
      let K' := fresh "K" in
      destruct (iadd_returns k x ix) as (ix' & E & K');
      [rewrite K; by apply (bool_decide_unpack _)
      |rewrite E, ?bind_Ok; rewrite K in K'; clear E]
  | K : od_keys ?ix = index_names |- context [iadd_int ?k ?n ?ix] =>
      let ix' := fresh "ix" in
      let E := fresh "E" in
      let K' := fresh "K" in
      destruct (iadd_int_returns k n ix) as (ix' & E & K');
      [rewrite K; by apply (bool_decide_unpack _)
      |rewrite E, ?bind_Ok; rewrite K in K'; clear E]
  end.

(** With positive degrees no guard fails and no division is by zero. *)
Lemma edge_update_returns dx dy indices :
  1 <= dx -> 1 <= dy -> od_keys indices = index_names ->
  exists indices', edge_update dx dy indices = Ok indices' /\
                   od_keys indices' = index_names.
Proof.
  intros Hdx Hdy K. unfold edge_update.
  assert (dx * dy ≠ 0) as Hm by nia.
  assert (dx + dy ≠ 0) as Hs by lia.
  assert (dy ≠ 0) as Hy by lia.
  assert (dx ≠ 0) as Hx by lia.
  rewrite !(bool_decide_eq_true_2 (dx * dy ≠ 0)) by done.
  rewrite !(bool_decide_eq_true_2 (dx + dy ≠ 0)) by done.
  rewrite !(bool_decide_eq_true_2 (dy ≠ 0)) by done.
  rewrite !(bool_decide_eq_true_2 (dx ≠ 0)) by done.
  rewrite !truediv_float_int_nonzero by done.
  rewrite (truediv_int_int_nonzero _ (dx + dy)), (truediv_int_int_nonzero _ dy),
    (truediv_int_int_nonzero _ dx) by done.
  do 6 step_iadd. rewrite math_sqrt_reciprocal, ?bind_Ok by lia.
  do 2 step_iadd.
  case_bool_decide as H2.
  - rewrite truediv_int_int_nonzero by lia. rewrite bind_Ok.
    do 2 step_iadd. by eexists.
  - rewrite ?bind_Ok. step_iadd. by eexists.
Qed.

Lemma for_edges_returns G es indices :
  (forall x y, (x, y) ∈ es ->
     exists dx dy, degree G x = Ok dx /\ degree G y = Ok dy /\ 1 <= dx /\ 1 <= dy) ->
  od_keys indices = index_names ->
  exists indices', for_edges G indices es = Ok indices' /\ od_keys indices' = index_names.
Proof.
  revert indices. induction es as [|[x y] es IH]; intros indices Hdeg K; simpl.
  - by eexists.
  - destruct (Hdeg x y) as (dx & dy & -> & -> & Hdx & Hdy); [apply list_elem_of_here|].
    rewrite !bind_Ok.
    destruct (edge_update_returns dx dy indices) as (ix & -> & K'); [done..|].
    rewrite bind_Ok. apply IH; [|done].
    intros x' y' Hin. apply Hdeg. by apply list_elem_of_further.
Qed.

Lemma calculate_indices_build_returns es :
  exists indices, calculate_indices (build es) = Ok indices /\
                  od_keys indices = index_names.
Proof.
  apply for_edges_returns; [|reflexivity].
  intros x y. apply edges_build_degrees.
Qed.

(** ** Degrees of a built graph *)

Lemma elem_of_neighbours n x es : x ∈ neighbours n es <-> (n, x) ∈ es \/ (x, n) ∈ es.
Proof.
  unfold neighbours. rewrite list_elem_of_bind. split.
  - intros ([u v] & Hx & He). simpl in Hx.
    apply elem_of_app in Hx as [Hx|Hx].
    + destruct (decide (u = n)) as [->|]; [|by apply elem_of_nil in Hx].
      apply list_elem_of_singleton in Hx as ->. by left.
    + destruct (decide (v = n)) as [->|]; [|by apply elem_of_nil in Hx].
      apply list_elem_of_singleton in Hx as ->. by right.
  - intros [He|He]; eexists; (split; [|exact He]); simpl; apply elem_of_app.
    + left. rewrite decide_True by done. apply list_elem_of_here.
    + right. rewrite decide_True by done. apply list_elem_of_here.
Qed.

Lemma build_nbrs es n :
  endpoint n es ->
  exists nbrs, od_get n (adj (build es)) = Some nbrs /\ NoDup nbrs /\
               forall x, x ∈ nbrs <-> x ∈ neighbours n es.
Proof.
  intros Hn. apply elem_of_keys_build, od_keys_get in Hn as [nbrs Hg].
  exists nbrs. split_and!; [done | by eapply adj_nodup_build |].
  intros x. rewrite elem_of_neighbours, <-adjacent_build. split.
  - intros Hx. by exists nbrs.
  - intros (nb & Hnb & Hx). congruence.
Qed.

Lemma degree_build es n :
  endpoint n es ->
  degree (build es) n =
    Ok (Z.of_nat (length (remove_dups (neighbours n es)))
        + (if bool_decide (n ∈ neighbours n es) then 1 else 0)).
Proof.
  intros (nbrs & Hg & Hnd & Hiff)%build_nbrs.
  unfold degree, od_item. rewrite Hg. simpl. do 2 f_equal.
  - f_equal. apply Permutation_length, NoDup_Permutation; [done|apply NoDup_remove_dups|].
    intros x. by rewrite elem_of_remove_dups.
  - by rewrite (bool_decide_ext _ _ (Hiff n)).
Qed.

Lemma endpoint_occurrences_neighbours n es :
  endpoint_occurrences n es = Z.of_nat (length (neighbours n es)).
Proof.
  unfold neighbours. induction es as [|[u v] es IH]; [done|].
  rewrite bind_cons, length_app, Nat2Z.inj_add, <-IH. simpl.
  destruct (decide (u = n)), (decide (v = n)); simpl; lia.
Qed.

Lemma build_repeated es1 es2 e :
  e ∈ es1 \/ (e.2, e.1) ∈ es1 -> build (es1 ++ e :: es2) = build (es1 ++ es2).
Proof.
  intros He. unfold build. rewrite !add_edges_from_app, add_edges_from_cons.
  f_equal. destruct e as [u v]. simpl in He.
  apply add_edge_present; apply adjacent_build; tauto.
Qed.

(** ** Evaluating the construction on named nodes *)

Section step_equations.
Implicit Types (a : odict node (list node)) (n k u v : node) (nbrs : list node).

Lemma od_get_cons_eq {V} k (x : V) (d : odict node V) : od_get k ((k, x) :: d) = Some x.
Proof. simpl. by rewrite decide_True. Qed.

Lemma od_get_cons_ne {V} n k (x : V) (d : odict node V) :
  n ≠ k -> od_get n ((k, x) :: d) = od_get n d.
Proof. intros. simpl. by rewrite decide_False. Qed.

Lemma key_set_nil v : key_set v [] = [v].
Proof. reflexivity. Qed.

Lemma key_set_cons_eq v nbrs : key_set v (v :: nbrs) = v :: nbrs.
Proof. apply key_set_id, list_elem_of_here. Qed.

Lemma key_set_cons_ne v k nbrs : v ≠ k -> key_set v (k :: nbrs) = k :: key_set v nbrs.
Proof.
  intros Hne. unfold key_set.
  rewrite (bool_decide_ext (v ∈ k :: nbrs) (v ∈ nbrs)).
  - by case_bool_decide.
  - rewrite elem_of_cons. tauto.
Qed.

Lemma add_node_nil n : add_node n [] = [(n, [])].
Proof. reflexivity. Qed.

Lemma add_node_cons_eq n nbrs a : add_node n ((n, nbrs) :: a) = (n, nbrs) :: a.
Proof.
  unfold add_node, od_mem. rewrite bool_decide_eq_true_2; [done|].
  apply list_elem_of_here.
Qed.

Lemma add_node_cons_ne n k nbrs a :
  n ≠ k -> add_node n ((k, nbrs) :: a) = (k, nbrs) :: add_node n a.
Proof.
  intros Hne. unfold add_node, od_mem. simpl. rewrite decide_False by done.
  rewrite (bool_decide_ext (n ∈ k :: od_keys a) (n ∈ od_keys a)).
  - by case_bool_decide.
  - rewrite elem_of_cons. tauto.
Qed.

Lemma add_nbr_nil u v : add_nbr u v [] = [].
Proof. reflexivity. Qed.

Lemma add_nbr_cons_eq u v nbrs a : add_nbr u v ((u, nbrs) :: a) = (u, key_set v nbrs) :: a.
Proof. unfold add_nbr. simpl. by rewrite !decide_True. Qed.

Lemma add_nbr_cons_ne u v k nbrs a :
  u ≠ k -> add_nbr u v ((k, nbrs) :: a) = (k, nbrs) :: add_nbr u v a.
Proof.
  intros Hne. unfold add_nbr. simpl. rewrite decide_False by done.
  destruct (od_get u a); simpl; [by rewrite decide_False | done].
Qed.

Lemma add_edge_adj a u v :
  add_edge {| adj := a |} (u, v) =
    {| adj := add_nbr v u (add_nbr u v (add_node v (add_node u a))) |}.
Proof. reflexivity. Qed.

Lemma degree_adj a n nbrs :
  od_get n a = Some nbrs ->
  degree {| adj := a |} n =
    Ok (Z.of_nat (length nbrs) + (if bool_decide (n ∈ nbrs) then 1 else 0)).
Proof. intros Hg. unfold degree, od_item. simpl. by rewrite Hg. Qed.
End step_equations.

Ltac graph_eval :=
  unfold build, empty_graph, add_edges_from; cbn [foldl];
  repeat first
    [ rewrite add_edge_adj
    | rewrite add_node_nil
    | rewrite add_node_cons_eq
    | rewrite add_node_cons_ne by congruence
    | rewrite add_nbr_nil
    | rewrite add_nbr_cons_eq
    | rewrite add_nbr_cons_ne by congruence
    | rewrite key_set_nil
    | rewrite key_set_cons_eq
    | rewrite key_set_cons_ne by congruence ].

Ltac solve_member := rewrite ?elem_of_cons, ?elem_of_nil; intuition congruence.

Ltac member_eval :=
  repeat first
    [ rewrite bool_decide_eq_true_2 by solve_member
    | rewrite bool_decide_eq_false_2 by solve_member
    | rewrite decide_True by solve_member
    | rewrite decide_False by solve_member ].

Ltac edges_eval :=
  unfold edges; cbn [adj edges_from filter list_filter]; member_eval;
  cbn [fmap list_fmap app].

Ltac degree_eval :=
  erewrite degree_adj by
    (repeat first [ apply od_get_cons_eq | rewrite od_get_cons_ne by congruence ]);
  cbn [length]; member_eval.

Lemma build_single u v : u ≠ v -> build [(u, v)] = {| adj := [(u, [v]); (v, [u])] |}.
Proof. intros Hne. by graph_eval. Qed.

Lemma build_loop x : build [(x, x)] = {| adj := [(x, [x])] |}.
Proof. by graph_eval. Qed.

Lemma edges_single u v : u ≠ v -> edges {| adj := [(u, [v]); (v, [u])] |} = [(u, v)].
Proof. intros Hne. by edges_eval. Qed.

Lemma edges_loop x : edges {| adj := [(x, [x])] |} = [(x, x)].
Proof. by edges_eval. Qed.

Ltac indices_eval :=
  unfold calculate_indices; edges_eval; cbn [for_edges edge_step];
  repeat degree_eval; rewrite ?bind_Ok.

(** * Main theorems *)

(** C1, as amended.  A [networkx.Graph] holds no parallel edges, so building
    the graph merges repeated pairs.  The degree of an endpoint is the number
    of distinct nodes it is joined to, itself counted twice when it has a
    self-loop, whereas its endpoint occurrences count every entry; an entry
    that repeats an earlier one, in either direction, can be dropped without
    changing the graph or the computed indices; and the list with the pair
    [(u, v)] twice gives [u] and [v] degree 1 each. *)
Theorem C1_degree_counts_distinct_edges (es : list (node * node)) :
  (forall n, endpoint n es ->
     degree (build es) n =
       Ok (Z.of_nat (length (remove_dups (neighbours n es)))
           + (if bool_decide (n ∈ neighbours n es) then 1 else 0))
     /\ endpoint_occurrences n es = Z.of_nat (length (neighbours n es)))
  /\ (forall es' e, e ∈ es \/ (e.2, e.1) ∈ es ->
        build (es ++ e :: es') = build (es ++ es')
        /\ calculate_indices (build (es ++ e :: es')) = calculate_indices (build (es ++ es')))
  /\ (forall u v, u ≠ v ->
        degree (build [(u, v); (u, v)]) u = Ok 1 /\ degree (build [(u, v); (u, v)]) v = Ok 1).
Proof.
  split_and!.
  - intros n Hn. split; [by apply degree_build | apply endpoint_occurrences_neighbours].
  - intros es' e He. assert (build (es ++ e :: es') = build (es ++ es')) as Heq
      by by apply build_repeated.
    by rewrite Heq.
  - intros u v Hne.
    change (build [(u, v); (u, v)]) with (build ([(u, v)] ++ (u, v) :: [])).
    rewrite build_repeated by (left; apply list_elem_of_here).
    cbn [app]. rewrite build_single by done. split; by degree_eval.
Qed.

Lemma C1_degree_counts_distinct_edges_witness :
  degree (build [(0, 1); (1, 2); (1, 0)]) 1 = Ok 2
  /\ build ([(0, 1); (1, 2)] ++ (1, 0) :: [(2, 3)]) = build ([(0, 1); (1, 2)] ++ [(2, 3)])
  /\ degree (build [(4, 7); (4, 7)]) 4 = Ok 1.
Proof.
  split_and!.
  - apply (proj1 (C1_degree_counts_distinct_edges [(0, 1); (1, 2); (1, 0)]) 1).
    exists (0, 1). split; [apply list_elem_of_here | by right].
  - apply (proj1 (proj2 (C1_degree_counts_distinct_edges [(0, 1); (1, 2)])) [(2, 3)] (1, 0)).
    right. apply list_elem_of_here.
  - apply (proj2 (proj2 (C1_degree_counts_distinct_edges [])) 4 7). lia.
Defined.

(** C1, as stated, fails: with the pair [(0, 1)] twice in the list, node 0
    has two endpoint occurrences but degree 1. *)
Lemma C1_counterexample :
  endpoint_occurrences 0 [(0, 1); (0, 1)] = 2
  /\ degree (build [(0, 1); (0, 1)]) 0 = Ok 1
  /\ degree (build [(0, 1); (0, 1)]) 0 ≠ Ok (endpoint_occurrences 0 [(0, 1); (0, 1)]).
Proof. split_and!; [reflexivity | reflexivity | discriminate]. Qed.

(** C5.  On a graph with no edges [calculate_indices] returns, without
    raising, a dictionary with exactly the ten keys, each at [0.0]. *)
Theorem C5_zero_edges (G : Graph) :
  edges G = [] ->
  exists indices,
    calculate_indices G = Ok indices
    /\ od_keys indices = index_names
    /\ forall k, k ∈ index_names -> od_get k indices = Some zero.
Proof.
  intros HG. unfold calculate_indices. rewrite HG. simpl.
  exists initial_indices. split_and!; [done..|].
  intros k Hk. unfold index_names in Hk.
  repeat (apply elem_of_cons in Hk as [->|Hk]; [reflexivity|]).
  by apply elem_of_nil in Hk.
Qed.

Lemma C5_zero_edges_witness :
  exists indices,
    calculate_indices {| adj := [(7, [])] |} = Ok indices
    /\ od_keys indices = index_names
    /\ forall k, k ∈ index_names -> od_get k indices = Some zero.
Proof. apply (C5_zero_edges {| adj := [(7, [])] |}). reflexivity. Defined.

(** C10.  In a graph built from an edge list every endpoint has degree at
    least 1.  So on every edge that [calculate_indices] visits the guards
    [dx*dy != 0], [sum_deg != 0], [dy != 0] and [dx != 0] hold, [sum_deg] is at
    least 2, the divisor [sum_deg - 2] is at least 1 whenever [sum_deg] is not
    2, and the computation returns: no division by zero is raised. *)
Theorem C10_no_division_by_zero (es : list (node * node)) :
  (forall n, endpoint n es -> exists d, degree (build es) n = Ok d /\ 1 <= d)
  /\ (forall x y, (x, y) ∈ edges (build es) ->
        exists dx dy,
          degree (build es) x = Ok dx /\ degree (build es) y = Ok dy
          /\ 1 <= dx /\ 1 <= dy
          /\ bool_decide (dx * dy ≠ 0) = true
          /\ bool_decide (dx + dy ≠ 0) = true
          /\ bool_decide (dy ≠ 0) = true
          /\ bool_decide (dx ≠ 0) = true
          /\ 2 <= dx + dy
          /\ (dx + dy ≠ 2 -> 1 <= dx + dy - 2))
  /\ exists indices, calculate_indices (build es) = Ok indices.
Proof.
  split_and!.
  - intros n ([u v] & He & Hn). simpl in Hn.
    assert (exists x, adjacent (adj (build es)) n x) as [x Hx].
    { destruct Hn as [-> | ->]; [exists v | exists u]; apply adjacent_build; tauto. }
    by eapply degree_adjacent.
  - intros x y (dx & dy & Hx & Hy & Hdx & Hdy)%edges_build_degrees.
    exists dx, dy. rewrite !bool_decide_eq_true.
    split_and!; try done; try lia; nia.
  - destruct (calculate_indices_build_returns es) as (indices & H & _). by exists indices.
Qed.

Lemma C10_no_division_by_zero_witness :
  (exists d, degree (build [(0, 1); (1, 2)]) 1 = Ok d /\ 1 <= d)
  /\ exists dx dy,
       degree (build [(0, 1); (1, 2)]) 1 = Ok dx /\ degree (build [(0, 1); (1, 2)]) 2 = Ok dy
       /\ 1 <= dx /\ 1 <= dy
       /\ bool_decide (dx * dy ≠ 0) = true
       /\ bool_decide (dx + dy ≠ 0) = true
       /\ bool_decide (dy ≠ 0) = true
       /\ bool_decide (dx ≠ 0) = true
       /\ 2 <= dx + dy
       /\ (dx + dy ≠ 2 -> 1 <= dx + dy - 2).
Proof.
  split.
  - apply (proj1 (C10_no_division_by_zero [(0, 1); (1, 2)]) 1).
    exists (0, 1). split; [apply list_elem_of_here | by right].
  - apply (proj1 (proj2 (C10_no_division_by_zero [(0, 1); (1, 2)])) 1 2).
    apply (bool_decide_unpack _). vm_compute. exact I.
Defined.


(** C2, as amended.  For a single edge between two distinct nodes both
    degrees are 1 and [calculate_indices] returns M1=2, M2=1, mM2=1.0, FG=2,
    ISI=0.5, H=1.0, SC=sqrt(0.5), HM=4, A=0.0 (the term is skipped) and
    SDD=2.0. *)
Theorem C2_single_edge (u v : node) :
  u ≠ v ->
  degree (build [(u, v)]) u = Ok 1
  /\ degree (build [(u, v)]) v = Ok 1
  /\ calculate_indices (build [(u, v)]) =
       Ok [("M1", of_int 2); ("M2", of_int 1); ("mM2", of_int 1); ("FG", of_int 2);
           ("ISI", lit 1 2); ("H", of_int 1); ("SC", sqrt (lit 1 2)); ("HM", of_int 4);
           ("A", zero); ("SDD", of_int 2)]%string.
Proof.
  intros Hne. rewrite build_single by done. split_and!.
  - by degree_eval.
  - by degree_eval.
  - indices_eval. vm_compute. reflexivity.
Qed.

Lemma C2_single_edge_witness :
  degree (build [(0, 1)]) 0 = Ok 1
  /\ degree (build [(0, 1)]) 1 = Ok 1
  /\ calculate_indices (build [(0, 1)]) =
       Ok [("M1", of_int 2); ("M2", of_int 1); ("mM2", of_int 1); ("FG", of_int 2);
           ("ISI", lit 1 2); ("H", of_int 1); ("SC", sqrt (lit 1 2)); ("HM", of_int 4);
           ("A", zero); ("SDD", of_int 2)]%string.
Proof. apply (C2_single_edge 0 1). lia. Defined.

(** C2, as stated, fails on ISI: for the single edge [(0, 1)] the value is
    [(1*1)/(1+1)], which is 0.5 and not 1.0. *)
Lemma C2_counterexample :
  exists indices,
    calculate_indices (build [(0, 1)]) = Ok indices
    /\ od_get "ISI"%string indices = Some (lit 1 2)
    /\ od_get "ISI"%string indices ≠ Some (of_int 1).
Proof. eexists. split_and!; [reflexivity | reflexivity | discriminate]. Qed.

(** C6.  For a triangle, whatever the order and the direction in which its
    three edges are listed, every node has degree 2 and [calculate_indices]
    returns M1=12, M2=12, HM=48 and A=24 (each edge adds 8 to A). *)
Theorem C6_triangle (a b c : node) (f1 f2 f3 : bool) :
  a ≠ b -> b ≠ c -> c ≠ a ->
  let G := build [orient f1 (a, b); orient f2 (b, c); orient f3 (c, a)] in
  degree G a = Ok 2 /\ degree G b = Ok 2 /\ degree G c = Ok 2
  /\ length (edges G) = 3%nat
  /\ calculate_indices G =
       Ok [("M1", of_int 12); ("M2", of_int 12); ("mM2", lit 3 4); ("FG", of_int 24);
           ("ISI", of_int 3); ("H", lit 3 2); ("SC", lit 3 2); ("HM", of_int 48);
           ("A", of_int 24); ("SDD", of_int 6)]%string.
Proof.
  intros H1 H2 H3 G. subst G.
  destruct f1, f2, f3; cbn [orient fst snd]; graph_eval;
    (split_and!;
     [by degree_eval | by degree_eval | by degree_eval | by edges_eval
     |indices_eval; vm_compute; reflexivity]).
Qed.

Lemma C6_triangle_witness :
  calculate_indices (build [(0, 1); (1, 2); (2, 0)]) =
    Ok [("M1", of_int 12); ("M2", of_int 12); ("mM2", lit 3 4); ("FG", of_int 24);
        ("ISI", of_int 3); ("H", lit 3 2); ("SC", lit 3 2); ("HM", of_int 48);
        ("A", of_int 24); ("SDD", of_int 6)]%string.
Proof. apply (C6_triangle 0 1 2 false false false); lia. Defined.

(** C7.  The graph of the single self-loop [(x, x)] has the one edge [(x, x)],
    [x] has degree 2, and the edge is processed like any other, with
    [dx = dy = 2] and [sum_deg = 4]: it adds to every index, A included. *)
Theorem C7_self_loop (x : node) :
  degree (build [(x, x)]) x = Ok 2
  /\ edges (build [(x, x)]) = [(x, x)]
  /\ calculate_indices (build [(x, x)]) = edge_update 2 2 initial_indices
  /\ calculate_indices (build [(x, x)]) =
       Ok [("M1", of_int 4); ("M2", of_int 4); ("mM2", lit 1 4); ("FG", of_int 8);
           ("ISI", of_int 1); ("H", lit 1 2); ("SC", lit 1 2); ("HM", of_int 16);
           ("A", of_int 8); ("SDD", of_int 2)]%string.
Proof.
  rewrite build_loop. split_and!.
  - by degree_eval.
  - apply edges_loop.
  - indices_eval. by destruct (edge_update _ _ _).
  - indices_eval. vm_compute. reflexivity.
Qed.

(** ** The batch loop *)

Lemma drug_record_returns data name :
  exists r, drug_record data name = Ok r /\ drug r = name /\ record_matches data r.
Proof.
  unfold drug_record, record_matches.
  destruct (data !! name) as [[es|marker]|] eqn:Hd.
  - destruct (calculate_indices_build_returns es) as (raw & Hraw & Hk).
    fold (build es). rewrite Hraw. simpl. eexists. split_and!; [done..|].
    simpl. rewrite Hd. by exists raw.
  - eexists. split_and!; [done..|]. simpl. by rewrite Hd.
  - eexists. split_and!; [done..|]. simpl. by rewrite Hd.
Qed.

Lemma for_names_returns data names results :
  exists rs,
    for_names data results names = Ok (results ++ rs)
    /\ drug <$> rs = names
    /\ Forall (record_matches data) rs.
Proof.
  revert results. induction names as [|name names IH]; intros results; simpl.
  - exists []. by rewrite app_nil_r.
  - destruct (drug_record_returns data name) as (r & -> & Hr & Hm). simpl.
    destruct (IH (results ++ [r])) as (rs & -> & Hrs & Hall).
    exists (r :: rs). rewrite <-app_assoc. split_and!; [done| |by constructor].
    rewrite fmap_cons. by f_equal.
Qed.

Lemma calculate_and_return_all_drugs_returns drug_list data :
  exists report,
    calculate_and_return_all_drugs drug_list data = Ok report
    /\ drug <$> report = sorted drug_list
    /\ Forall (record_matches data) report.
Proof. apply (for_names_returns data (sorted drug_list) []). Qed.

Lemma sorted_Sorted l : Sorted String.le (sorted l).
Proof. apply Sorted_merge_sort, _. Qed.

Lemma sorted_Permutation l : sorted l ≡ₚ l.
Proof. apply merge_sort_Permutation. Qed.

Lemma sorted_permutation_invariant l1 l2 : l1 ≡ₚ l2 -> sorted l1 = sorted l2.
Proof.
  intros Hp. apply (Sorted_unique String.le); [apply sorted_Sorted..|].
  by rewrite !sorted_Permutation.
Qed.

(** C3.  The report has one record per name of the list, in ascending order
    of the names: the names of its records are the sorted name list, which is
    the only ascending arrangement of the list.  So every permutation of the
    name list gives the same report. *)
Theorem C3_sorted_output (drug_list : list string) (data : gmap string entry) :
  exists report,
    calculate_and_return_all_drugs drug_list data = Ok report
    /\ drug <$> report = sorted drug_list
    /\ drug <$> report ≡ₚ drug_list
    /\ Sorted String.le (drug <$> report)
    /\ (forall names, names ≡ₚ drug_list -> Sorted String.le names ->
          drug <$> report = names)
    /\ forall drug_list', drug_list' ≡ₚ drug_list ->
         calculate_and_return_all_drugs drug_list' data = Ok report.
Proof.
  destruct (calculate_and_return_all_drugs_returns drug_list data) as (report & Hr & Hd & _).
  exists report. split_and!; [done|done| | | |].
  - rewrite Hd. apply sorted_Permutation.
  - rewrite Hd. apply sorted_Sorted.
  - intros names Hp Hs. rewrite Hd.
    apply (Sorted_unique String.le); [apply sorted_Sorted | done |].
    by rewrite sorted_Permutation.
  - intros l' Hp. unfold calculate_and_return_all_drugs in *.
    by rewrite (sorted_permutation_invariant l' drug_list).
Qed.

Lemma C3_sorted_output_witness :
  exists report,
    calculate_and_return_all_drugs ["zanubrutinib"; "afatinib"]%string example_data = Ok report
    /\ drug <$> report = ["afatinib"; "zanubrutinib"]%string
    /\ Sorted String.le (drug <$> report)
    /\ calculate_and_return_all_drugs ["afatinib"; "zanubrutinib"]%string example_data
       = Ok report.
Proof.
  destruct (C3_sorted_output ["zanubrutinib"; "afatinib"]%string example_data)
    as (report & H1 & H2 & _ & H3 & H4 & H5).
  exists report. split_and!; [exact H1 | | exact H3 |].
  - apply H4; [apply perm_swap|]. apply (bool_decide_unpack _). vm_compute. exact I.
  - apply H5. apply perm_swap.
Defined.

(** C4.  The batch never raises.  Every name gets exactly one record; a name
    that is missing from the document gets the failure record with [None],
    a name stored with an error marker gets the failure record with that very
    marker, and a name stored with an edge list gets a success record. *)
Theorem C4_batch_never_raises (drug_list : list string) (data : gmap string entry) :
  exists report,
    calculate_and_return_all_drugs drug_list data = Ok report
    /\ drug <$> report ≡ₚ drug_list
    /\ length report = length drug_list
    /\ Forall (fun r =>
                 match data !! drug r with
                 | Some (EdgeList _) => has_indices r = true
                 | Some (ErrorEntry marker) => r = Failure (drug r) (Some marker)
                 | None => r = Failure (drug r) None
                 end) report.
Proof.
  destruct (calculate_and_return_all_drugs_returns drug_list data) as (report & Hr & Hd & Hm).
  exists report. split_and!; [done| | |].
  - rewrite Hd. apply sorted_Permutation.
  - rewrite <-(length_fmap drug), Hd. apply Permutation_length, sorted_Permutation.
  - eapply Forall_impl; [exact Hm|]. intros r. unfold record_matches.
    destruct (data !! drug r) as [[es|marker]|]; [|done..].
    intros (raw & _ & _ & ->). done.
Qed.

(** ** Rounding *)

Lemma round_half_even_milli_nearest (m : positive) (e : Z) :
  let num := 1000 * Z.pos m * 2 ^ Z.max e 0 in
  let den := 2 ^ Z.max (- e) 0 in
  let n := round_half_even_milli m e in
  2 * Z.abs (num - n * den) <= den
  /\ (2 * Z.abs (num - n * den) = den -> Z.even n = true).
Proof.
  intros num den n. subst n. unfold round_half_even_milli. fold num den.
  assert (0 < den) as Hden by (apply Z.pow_pos_nonneg; lia).
  pose proof (Z.div_mod num den ltac:(lia)) as Hdm.
  pose proof (Z.mod_pos_bound num den Hden) as Hr.
  set (q := num / den) in *. set (r := num mod den) in *.
  assert (num - q * den = r) as Hq by lia.
  assert (num - (q + 1) * den = r - den) as Hq1 by lia.
  destruct (Z.compare_spec (2 * r) den) as [Heq|Hlt|Hgt].
  - destruct (Z.even q) eqn:Hev.
    + rewrite Hq. split; [lia | done].
    + rewrite Hq1. split; [lia|]. intros _.
      rewrite Z.even_add, Hev. reflexivity.
  - rewrite Hq. split; lia.
  - rewrite Hq1. split; lia.
Qed.

Lemma od_get_round_items k raw : od_get k (round_items raw) = round3 <$> od_get k raw.
Proof.
  unfold round_items. induction raw as [|[k' v] raw IH]; simpl; [done|].
  by destruct (decide (k = k')).
Qed.

Lemma od_keys_round_items raw : od_keys (round_items raw) = od_keys raw.
Proof.
  unfold round_items, od_keys. rewrite <-list_fmap_compose. by apply list_fmap_ext.
Qed.

Lemma report_lookup drug_list data report name :
  calculate_and_return_all_drugs drug_list data = Ok report ->
  name ∈ drug_list ->
  exists r, r ∈ report /\ drug r = name /\ record_matches data r.
Proof.
  intros Hr Hin.
  destruct (calculate_and_return_all_drugs_returns drug_list data) as (report' & Hr' & Hd & Hm).
  assert (report' = report) as -> by congruence.
  assert (name ∈ drug <$> report) as Hn by (by rewrite Hd, sorted_Permutation).
  apply list_elem_of_fmap in Hn as (r & -> & Hrin).
  exists r. split_and!; [done..|]. by eapply Forall_forall in Hm.
Qed.

(** C8.  For a name stored with an edge list the success record holds
    [round(v, 3)] of each of the ten raw values.  [round(v, 3)] takes the
    multiple of 1/1000 nearest to the exact value of [v], and the even
    multiple on a tie: 1.23456 gives 1.235, the ties 0.0625 and 0.1875 give
    0.062 and 0.188, and 1.2345, whose float lies below the tie, gives
    1.234. *)
Theorem C8_rounding :
  (forall drug_list data report name es,
      calculate_and_return_all_drugs drug_list data = Ok report ->
      name ∈ drug_list ->
      data !! name = Some (EdgeList es) ->
      exists raw,
        calculate_indices (build es) = Ok raw
        /\ Success name (round_items raw) ∈ report
        /\ od_keys (round_items raw) = index_names
        /\ forall k, od_get k (round_items raw) = round3 <$> od_get k raw)
  /\ (forall s m e,
        let n := round_half_even_milli m e in
        round3 (S754_finite s m e) =
          (if decide (n = 0) then S754_zero s
           else div (exact_int (if s then - n else n)) (exact_int 1000))
        /\ 0 <= n
        /\ 2 * Z.abs (1000 * Z.pos m * 2 ^ Z.max e 0 - n * 2 ^ Z.max (- e) 0)
             <= 2 ^ Z.max (- e) 0
        /\ (2 * Z.abs (1000 * Z.pos m * 2 ^ Z.max e 0 - n * 2 ^ Z.max (- e) 0)
              = 2 ^ Z.max (- e) 0 -> Z.even n = true))
  /\ round3 (lit 123456 100000) = lit 1235 1000
  /\ round3 (lit 625 10000) = lit 62 1000
  /\ round3 (lit 1875 10000) = lit 188 1000
  /\ round3 (lit 12345 10000) = lit 1234 1000.
Proof.
  split_and!; [| |vm_compute; reflexivity..].
  - intros drug_list data report name es Hr Hin Hd.
    destruct (report_lookup _ _ _ _ Hr Hin) as (r & Hrin & Hname & Hm).
    unfold record_matches in Hm. rewrite Hname, Hd in Hm.
    destruct Hm as (raw & Hraw & Hk & ->). exists raw.
    split_and!; [done|done| |intros k; apply od_get_round_items].
    by rewrite od_keys_round_items.
  - intros s m e n.
    destruct (round_half_even_milli_nearest m e) as [Hnear Htie]. fold n in Hnear, Htie.
    assert (0 <= n) as Hn.
    { assert (0 < 2 ^ Z.max (- e) 0) by (apply Z.pow_pos_nonneg; lia).
      assert (0 <= 2 ^ Z.max e 0) by (apply Z.pow_nonneg; lia).
      nia. }
    split_and!; [|done..].
    unfold round3. fold n. destruct n as [|p|p]; [done| |lia].
    rewrite decide_False by done. by destruct s.
Qed.

Lemma C8_rounding_witness :
  exists raw,
    calculate_indices (build [(0, 1); (1, 2)]) = Ok raw
    /\ od_get "H"%string (round_items raw) = Some (lit 1333 1000).
Proof.
  destruct (proj1 C8_rounding ["zanubrutinib"; "afatinib"]%string example_data
              [Failure "afatinib" (Some [("error", "edge relations not found")]%string);
               Success "zanubrutinib"
                 (round_items
                    [("M1", of_int 6); ("M2", of_int 4); ("mM2", of_int 1);
                     ("FG", of_int 10); ("ISI", lit 4 3); ("H", lit 4 3);
                     ("SC", add (sqrt (lit 1 3)) (sqrt (lit 1 3))); ("HM", of_int 18);
                     ("A", of_int 16); ("SDD", of_int 5)]%string)]
              "zanubrutinib"%string [(0, 1); (1, 2)])
    as (raw & Hraw & _ & _ & Hget).
  - vm_compute. reflexivity.
  - apply list_elem_of_here.
  - reflexivity.
  - exists raw. split; [exact Hraw|]. rewrite Hget.
    vm_compute in Hraw. injection Hraw as <-. vm_compute. reflexivity.
Defined.

(** ** The table *)









(** C9, as stated, fails on the columns: the batch for the one name
    "afatinib" on the empty document returns one failure record, and its
    table has no column at all, not the ten index identifiers. *)
Lemma C9_counterexample :
  calculate_and_return_all_drugs ["afatinib"]%string ∅ = Ok [Failure "afatinib" None]
  /\ df_columns (save_results_to_dataframe [Failure "afatinib" None]) = []
  /\ df_columns (save_results_to_dataframe [Failure "afatinib" None]) ≠ index_names.
Proof.
  split_and!; [vm_compute; reflexivity | vm_compute; reflexivity | vm_compute; discriminate].
Qed.

(** * Further properties *)

(** ** Names in addresses *)

Lemma contains_app c s1 s2 :
  contains c (s1 ++ s2)%string = contains c s1 || contains c s2.
Proof.
  induction s1 as [|c1 s1 IH]; simpl; [done|]. by rewrite IH, orb_assoc.
Qed.

(** What [quoter] writes for a byte: the byte itself, which is then neither
    a space nor a percent sign, or a percent sign and two hexadecimal digits
    that give the byte back. *)
Lemma quoter_cases c :
  (quoter c = String c EmptyString /\ c ≠ "%"%char /\ c ≠ " "%char)
  \/ (exists h1 h2,
        quoter c = String "%"%char (String h1 (String h2 EmptyString))
        /\ c = Ascii.ascii_of_N (16 * hex_value h1 + hex_value h2)
        /\ h1 ≠ " "%char /\ h2 ≠ " "%char).
Proof.
  destruct c as [[] [] [] [] [] [] [] []];
    first [ left; split_and!; [reflexivity | discriminate | discriminate]
          | right; eexists _, _; split_and!; [reflexivity | reflexivity
                                              | discriminate | discriminate] ].
Qed.

Lemma quoter_no_space c : contains " "%char (quoter c) = false.
Proof.
  destruct (quoter_cases c) as [(-> & _ & Hs)|(h1 & h2 & -> & _ & H1 & H2)];
    cbn [contains].
  - by rewrite (proj2 (Ascii.eqb_neq " "%char c)) by congruence.
  - rewrite (proj2 (Ascii.eqb_neq " "%char h1)), (proj2 (Ascii.eqb_neq " "%char h2))
      by congruence.
    reflexivity.
Qed.

Lemma quote_no_space s : contains " "%char (quote s) = false.
Proof.
  induction s as [|c s IH]; simpl; [done|].
  by rewrite contains_app, quoter_no_space, IH.
Qed.

Lemma quote_inj s1 s2 : quote s1 = quote s2 -> s1 = s2.
Proof.
  revert s2. induction s1 as [|c1 s1 IH]; intros [|c2 s2]; simpl.
  - done.
  - destruct (quoter_cases c2) as [(-> & _)|(? & ? & -> & _)]; discriminate.
  - destruct (quoter_cases c1) as [(-> & _)|(? & ? & -> & _)]; discriminate.
  - destruct (quoter_cases c1) as [(-> & Hp1 & _)|(h1 & h2 & -> & -> & _)],
      (quoter_cases c2) as [(-> & Hp2 & _)|(k1 & k2 & -> & -> & _)]; simpl.
    + intros [= -> Hq]. f_equal. by apply IH.
    + intros [= -> Hq]. done.
    + intros [= <- Hq]. done.
    + intros [= -> -> Hq]. f_equal. by apply IH.
Qed.

Lemma quoter_url_safe c :
  forallb url_safe (String.list_ascii_of_string (quoter c)) = true.
Proof. destruct c as [[] [] [] [] [] [] [] []]; reflexivity. Qed.

Lemma list_ascii_of_string_app s1 s2 :
  String.list_ascii_of_string (s1 ++ s2)%string =
    String.list_ascii_of_string s1 ++ String.list_ascii_of_string s2.
Proof. induction s1 as [|c s1 IH]; simpl; [done|]. by rewrite IH. Qed.

Lemma quote_url_safe s :
  forallb url_safe (String.list_ascii_of_string (quote s)) = true.
Proof.
  induction s as [|c s IH]; [done|]. cbn [quote].
  by rewrite list_ascii_of_string_app, forallb_app, quoter_url_safe, IH.
Qed.

(** X1.  The name put into an address never holds a space, whatever the drug
    name, and neither does the address requested from PubChem. *)
Theorem X1_encode_name_no_space (name : string) :
  contains " "%char (encode_name name) = false
  /\ contains " "%char (pubchem_url name) = false.
Proof.
  assert (contains " "%char (encode_name name) = false) as Hn.
  { unfold encode_name. destruct (contains " "%char name) eqn:Hs; [|done].
    apply quote_no_space. }
  split; [done|]. unfold pubchem_url. cbv zeta.
  rewrite contains_app, contains_app, Hn. reflexivity.
Qed.

(** X2.  [encode_name] is idempotent: encoding an encoded name changes
    nothing, although [quote] alone would escape the percent signs again. *)
Theorem X2_encode_name_idempotent (name : string) :
  encode_name (encode_name name) = encode_name name.
Proof.
  unfold encode_name at 1.
  by rewrite (proj1 (X1_encode_name_no_space name)).
Qed.

(** X3.  Two different names that both hold a space never get the same
    encoding. *)
Theorem X3_encode_name_injective_on_spaced (name1 name2 : string) :
  contains " "%char name1 = true ->
  contains " "%char name2 = true ->
  encode_name name1 = encode_name name2 ->
  name1 = name2.
Proof.
  unfold encode_name. intros -> ->. apply quote_inj.
Qed.

Lemma X3_encode_name_injective_on_spaced_witness :
  encode_name "mitomycin c" = encode_name "mitomycin c" /\ "mitomycin c" = "mitomycin c".
Proof.
  split; [reflexivity|].
  apply (X3_encode_name_injective_on_spaced "mitomycin c" "mitomycin c");
    vm_compute; reflexivity.
Defined.

(** X4.  Over all names [encode_name] is not injective: a name with a space
    and its own encoding, which is a different name without a space, are
    sent to the same text. *)
Theorem X4_encode_name_collision (name : string) :
  contains " "%char name = true ->
  quote name ≠ name /\ encode_name (quote name) = encode_name name.
Proof.
  intros Hs. split.
  - intros Heq. pose proof (quote_no_space name) as Hq. congruence.
  - unfold encode_name. by rewrite quote_no_space, Hs.
Qed.

Lemma X4_encode_name_collision_witness :
  quote "mitomycin c" ≠ "mitomycin c"
  /\ encode_name (quote "mitomycin c") = encode_name "mitomycin c".
Proof. apply (X4_encode_name_collision "mitomycin c"). vm_compute. reflexivity. Defined.

(** X5.  A name with a space is encoded into letters, digits, [_.-~/] and
    percent signs only. *)
Theorem X5_encode_name_url_safe (name : string) :
  contains " "%char name = true ->
  Forall (fun c => url_safe c = true) (String.list_ascii_of_string (encode_name name)).
Proof.
  intros Hs. unfold encode_name. rewrite Hs.
  apply Forall_forall. intros c Hc. apply list_elem_of_In in Hc.
  by apply (proj1 (forallb_forall _ _) (quote_url_safe name)).
Qed.

Lemma X5_encode_name_url_safe_witness :
  encode_name "mitomycin c" = "mitomycin%20c"
  /\ Forall (fun c => url_safe c = true)
            (String.list_ascii_of_string (encode_name "mitomycin c")).
Proof.
  split; [vm_compute; reflexivity|].
  apply (X5_encode_name_url_safe "mitomycin c"). vm_compute. reflexivity.
Defined.

(** ** The stored document *)

Lemma store_result_insert m name result :
  store_result m (name, result) = <[name := entry_of result]> m.
Proof. by destruct result. Qed.

Lemma foldl_store_result_notin lookups m name :
  name ∉ lookups.*1 -> foldl store_result m lookups !! name = m !! name.
Proof.
  revert m. induction lookups as [|[n r] lookups IH]; intros m Hn; [done|].
  rewrite fmap_cons, not_elem_of_cons in Hn. destruct Hn as [Hne Hn].
  cbn [foldl]. rewrite IH, store_result_insert by done. by apply lookup_insert_ne.
Qed.

Lemma foldl_store_result_is_Some lookups m name :
  is_Some (foldl store_result m lookups !! name) <->
  is_Some (m !! name) \/ name ∈ lookups.*1.
Proof.
  revert m. induction lookups as [|[n r] lookups IH]; intros m.
  - simpl. rewrite elem_of_nil. tauto.
  - cbn [foldl]. rewrite IH, store_result_insert, fmap_cons, elem_of_cons.
    rewrite lookup_insert_is_Some. simpl.
    destruct (decide (n = name)); intuition congruence.
Qed.

Lemma foldl_store_result_entries lookups m :
  map_Forall (fun _ e => e = ErrorEntry not_found \/ exists es, e = EdgeList es) m ->
  map_Forall (fun _ e => e = ErrorEntry not_found \/ exists es, e = EdgeList es)
             (foldl store_result m lookups).
Proof.
  revert m. induction lookups as [|[n r] lookups IH]; intros m Hm; [done|].
  cbn [foldl]. apply IH. rewrite store_result_insert. apply map_Forall_insert_2; [|done].
  destruct r; simpl; eauto.
Qed.

Lemma lookups_stored (lookups : list (string * option (list (node * node)))) :
  (forall name, name ∈ lookups.*1 -> is_Some (edge_relations_of lookups !! name))
  /\ (forall before name result after,
        lookups = before ++ (name, result) :: after ->
        name ∉ after.*1 ->
        edge_relations_of lookups !! name = Some (entry_of result))
  /\ (forall name e, edge_relations_of lookups !! name = Some e ->
        e = ErrorEntry not_found \/ exists es, e = EdgeList es).
Proof.
  unfold edge_relations_of. split_and!.
  - intros name Hn. apply foldl_store_result_is_Some. by right.
  - intros before name result after -> Hn.
    rewrite foldl_app. cbn [foldl].
    rewrite foldl_store_result_notin, store_result_insert by done.
    by rewrite lookup_insert_eq.
  - intros name e He.
    by apply (foldl_store_result_entries lookups ∅ (map_Forall_empty _) name e).
Qed.

(** X6.  The document holds an entry for exactly the names that were looked
    up.  The entry of a name comes from its last lookup: the edge list when
    the lookup returned one, the marker "edge relations not found" when it
    returned [None]; no other marker is ever stored. *)
Theorem X6_edge_relations (lookups : list (string * option (list (node * node)))) :
  (forall name, is_Some (edge_relations_of lookups !! name) <-> name ∈ lookups.*1)
  /\ (forall before name result after,
        lookups = before ++ (name, result) :: after ->
        name ∉ after.*1 ->
        edge_relations_of lookups !! name =
          Some (match result with
                | None => ErrorEntry not_found
                | Some es => EdgeList es
                end))
  /\ (forall name e, edge_relations_of lookups !! name = Some e ->
        e = ErrorEntry not_found \/ exists es, e = EdgeList es).
Proof.
  unfold edge_relations_of. split_and!.
  - intros name. rewrite foldl_store_result_is_Some, lookup_empty.
    split; [intros [[? ?]|?]; done | by right].
  - intros before name result after -> Hn.
    rewrite foldl_app. cbn [foldl].
    rewrite foldl_store_result_notin, store_result_insert by done.
    by rewrite lookup_insert_eq.
  - intros name e He.
    by apply (foldl_store_result_entries lookups ∅ (map_Forall_empty _) name e).
Qed.

Lemma X6_edge_relations_witness :
  edge_relations_of [("afatinib", None); ("busulfan", Some [(0, 1)]);
                     ("afatinib", Some [(1, 2)])] !! "afatinib"
    = Some (EdgeList [(1, 2)])
  /\ (ErrorEntry not_found = ErrorEntry not_found
      \/ exists es, ErrorEntry not_found = EdgeList es).
Proof.
  split.
  - apply (proj1 (proj2 (X6_edge_relations _))
             [("afatinib", None); ("busulfan", Some [(0, 1)])] "afatinib"
             (Some [(1, 2)]) []); [reflexivity | apply not_elem_of_nil].
  - apply (proj2 (proj2 (X6_edge_relations [("afatinib", None)])) "afatinib").
    reflexivity.
Defined.

(** ** The edge view *)

Lemma elem_of_edges_from_iff seen a x y :
  (x, y) ∈ edges_from seen a <->
  exists a1 nbrs a2,
    a = a1 ++ (x, nbrs) :: a2 /\ y ∈ nbrs /\ (y ∉ seen) /\ (y ∉ od_keys a1).
Proof.
  revert seen. induction a as [|[n nb] a IH]; intros seen; cbn [edges_from].
  - split; [by intros ?%elem_of_nil|].
    intros (a1 & nbrs & a2 & Ha & _). by destruct a1.
  - rewrite elem_of_app, list_elem_of_fmap, IH. split.
    + intros [(z & [= -> ->] & [Hs Hz]%list_elem_of_filter)
             |(a1 & nbrs & a2 & -> & Hy & Hs & Ha1)].
      * exists [], nb, a. split_and!; [done..|apply not_elem_of_nil].
      * exists ((n, nb) :: a1), nbrs, a2.
        rewrite not_elem_of_cons in Hs. destruct Hs as [Hne Hs].
        split_and!; [done..|]. cbn. rewrite not_elem_of_cons. done.
    + intros (a1 & nbrs & a2 & Ha & Hy & Hs & Ha1). destruct a1 as [|[n' nb'] a1].
      * injection Ha as -> -> ->. left. exists y. split; [done|].
        by apply list_elem_of_filter.
      * injection Ha as -> -> ->. right. cbn in Ha1.
        rewrite not_elem_of_cons in Ha1. destruct Ha1 as [Hne Ha1].
        exists a1, nbrs, a2. split_and!; [done..| |done].
        rewrite not_elem_of_cons. done.
Qed.

Section first_entry.
Context {V : Type}.
Implicit Types (a b : odict node V).

Lemma od_get_split n v a :
  od_get n a = Some v -> exists a1 a2, a = a1 ++ (n, v) :: a2 /\ n ∉ od_keys a1.
Proof.
  induction a as [|[k w] a IH]; simpl; [done|].
  destruct (decide (n = k)) as [->|Hne].
  - intros [= ->]. exists [], a. split; [done | apply not_elem_of_nil].
  - intros (a1 & a2 & -> & Hn)%IH. exists ((k, w) :: a1), a2. split; [done|].
    cbn. rewrite not_elem_of_cons. done.
Qed.

(** In one list, the first entry of a key that occurs before an entry [X]
    starts strictly before [X]. *)
Lemma first_entry_before a1 a2 b1 b2 (X Y : node * V) :
  a1 ++ X :: a2 = b1 ++ Y :: b2 ->
  Y.1 ∈ od_keys a1 -> Y.1 ∉ od_keys b1 ->
  exists c, a1 = b1 ++ Y :: c.
Proof.
  revert a1. induction b1 as [|W b1 IH]; intros [|Z a1] Heq Hin Hnin.
  - by apply elem_of_nil in Hin.
  - injection Heq as -> _. by exists a1.
  - by apply elem_of_nil in Hin.
  - injection Heq as -> Heq. cbn in Hin, Hnin.
    rewrite not_elem_of_cons in Hnin. destruct Hnin as [Hne Hnin].
    apply elem_of_cons in Hin as [?|Hin]; [done|].
    destruct (IH a1 Heq Hin Hnin) as [c ->]. by exists c.
Qed.

(** Two entries of one list, each with the other's key absent before it, are
    the same entry. *)
Lemma entries_not_before_each_other a1 a2 b1 b2 (X Y : node * V) :
  a1 ++ X :: a2 = b1 ++ Y :: b2 ->
  Y.1 ∉ od_keys a1 -> X.1 ∉ od_keys b1 -> X = Y.
Proof.
  revert b1. induction a1 as [|Z a1 IH]; intros [|W b1] Heq HY HX.
  - by injection Heq.
  - injection Heq as -> _. exfalso. apply HX. cbn. apply list_elem_of_here.
  - injection Heq as -> _. exfalso. apply HY. cbn. apply list_elem_of_here.
  - injection Heq as -> Heq. cbn in HX, HY.
    rewrite not_elem_of_cons in HX, HY. apply (IH b1); tauto.
Qed.
End first_entry.

Lemma edges_from_keys seen a x y : (x, y) ∈ edges_from seen a -> x ∈ od_keys a.
Proof.
  intros (nbrs & Hin & _)%elem_of_edges_from.
  change x with ((x, nbrs).1). by apply list_elem_of_fmap_2.
Qed.

Lemma NoDup_edges_from seen a :
  NoDup (od_keys a) -> Forall (fun e => NoDup e.2) a -> NoDup (edges_from seen a).
Proof.
  revert seen. induction a as [|[n nb] a IH]; intros seen Hk Hn; cbn [edges_from].
  - apply NoDup_nil_2.
  - cbn in Hk. apply NoDup_cons in Hk as [Hnin Hk].
    apply Forall_cons in Hn as [Hnb Hn]. apply NoDup_app. split_and!.
    + apply NoDup_fmap_2; [by intros ?? [= ->]|]. by apply NoDup_filter.
    + intros [x y] (z & [= -> ->] & _)%list_elem_of_fmap Hin.
      by apply edges_from_keys in Hin.
    + by apply IH.
Qed.

(** X7.  [G.edges()] on a built graph reports every edge of the list once:
    each pair it yields is an entry of the list in one direction or the
    other, each entry of the list is yielded in one direction or the other,
    no pair is yielded twice, and an edge between two different nodes is never
    yielded in both directions. *)
Theorem X7_edges_once (es : list (node * node)) :
  (forall x y, (x, y) ∈ edges (build es) -> (x, y) ∈ es \/ (y, x) ∈ es)
  /\ (forall x y, (x, y) ∈ es -> (x, y) ∈ edges (build es) \/ (y, x) ∈ edges (build es))
  /\ NoDup (edges (build es))
  /\ (forall x y, x ≠ y -> (x, y) ∈ edges (build es) -> (y, x) ∉ edges (build es)).
Proof.
  destruct (adj_nodup_build es) as [Hk Hn]. split_and!.
  - intros x y Hin. apply adjacent_build. by apply edges_adjacent.
  - intros x y Hin.
    assert (adjacent (adj (build es)) x y) as (nbx & Hx & Hyx) by (apply adjacent_build; tauto).
    assert (adjacent (adj (build es)) y x) as (nby & Hy & Hxy) by (apply adjacent_build; tauto).
    apply od_get_split in Hx as (a1 & a2 & Ha & Hx1).
    apply od_get_split in Hy as (b1 & b2 & Hb & Hy1).
    unfold edges. rewrite !elem_of_edges_from_iff.
    destruct (decide (y ∈ od_keys a1)) as [Hya|Hya].
    + right. exists b1, nby, b2. split_and!; [done..|apply not_elem_of_nil|].
      intros Hxb. rewrite Ha in Hb.
      destruct (first_entry_before _ _ _ _ _ _ Hb Hya Hy1) as [c ->].
      apply Hx1. unfold od_keys in *. rewrite fmap_app. apply elem_of_app. by left.
    + left. exists a1, nbx, a2. split_and!; [done..|apply not_elem_of_nil|done].
  - apply NoDup_edges_from; [done|]. apply Forall_forall. intros [n nb] Hin.
    apply (Hn n). by apply od_elem_of_get.
  - intros x y Hne Hxy Hyx. unfold edges in *.
    apply elem_of_edges_from_iff in Hxy as (a1 & nbx & a2 & Ha & _ & _ & Hy).
    apply elem_of_edges_from_iff in Hyx as (b1 & nby & b2 & Hb & _ & _ & Hx).
    rewrite Ha in Hb.
    pose proof (entries_not_before_each_other _ _ _ _ _ _ Hb Hy Hx) as Heq.
    congruence.
Qed.

Lemma X7_edges_once_witness :
  ((1, 0) ∈ edges (build [(0, 1); (1, 0); (1, 2)]) \/ (0, 1) ∈ edges (build [(0, 1); (1, 0); (1, 2)]))
  /\ (1, 2) ∉ edges (build [(2, 1); (1, 2)]).
Proof.
  split.
  - apply (proj1 (proj2 (X7_edges_once [(0, 1); (1, 0); (1, 2)])) 1 0).
    apply (bool_decide_unpack _). vm_compute. exact I.
  - apply (proj2 (proj2 (proj2 (X7_edges_once [(2, 1); (1, 2)]))) 2 1); [lia|].
    apply (bool_decide_unpack _). vm_compute. exact I.
Defined.

(** X8.  The nodes of a built graph are the endpoints of the list, each
    once.  The neighbours of a node are, each once, the nodes that some entry
    joins it to, in either direction; so being a neighbour is symmetric, and
    the empty list gives the graph without nodes. *)
Theorem X8_graph_of_edge_list (es : list (node * node)) :
  NoDup (od_keys (adj (build es)))
  /\ (forall n, n ∈ od_keys (adj (build es)) <-> endpoint n es)
  /\ (forall n nbrs, od_get n (adj (build es)) = Some nbrs ->
        NoDup nbrs /\ forall x, x ∈ nbrs <-> (n, x) ∈ es \/ (x, n) ∈ es)
  /\ (forall n x, adjacent (adj (build es)) n x <-> adjacent (adj (build es)) x n)
  /\ (es = [] <-> adj (build es) = []).
Proof.
  destruct (adj_nodup_build es) as [Hk Hn]. split_and!.
  - done.
  - apply elem_of_keys_build.
  - intros n nbrs Hg. split; [by eapply Hn|].
    intros x. rewrite <-adjacent_build. split.
    + intros Hx. by exists nbrs.
    + intros (nb & Hnb & Hx). congruence.
  - intros n x. split; apply adjacent_build_sym.
  - split; [by intros ->|]. intros Ha. destruct es as [|[u v] es]; [done|].
    assert (u ∈ od_keys (adj (build ((u, v) :: es)))) as Hu.
    { apply elem_of_keys_build. exists (u, v). split; [apply list_elem_of_here | by left]. }
    rewrite Ha in Hu. by apply elem_of_nil in Hu.
Qed.

Lemma X8_graph_of_edge_list_witness :
  NoDup [2; 1] /\ forall x, x ∈ [2; 1] <-> (0, x) ∈ [(0, 2); (1, 0); (2, 0)] \/ (x, 0) ∈ [(0, 2); (1, 0); (2, 0)].
Proof.
  apply (proj1 (proj2 (proj2 (X8_graph_of_edge_list [(0, 2); (1, 0); (2, 0)]))) 0 [2; 1]).
  reflexivity.
Defined.

(** ** Signs of the computed floats *)

Lemma shr_1_nonneg mrs : 0 <= shr_m mrs -> 0 <= shr_m (shr_1 mrs).
Proof. destruct mrs as [[|[p|p|]|[p|p|]] r s]; simpl; lia. Qed.

Lemma iter_pos_shr_1_nonneg n mrs :
  0 <= shr_m mrs -> 0 <= shr_m (SpecFloat.iter_pos shr_1 n mrs).
Proof.
  revert mrs. induction n as [n IH|n IH|]; intros mrs Hm; simpl.
  - by apply IH, IH, shr_1_nonneg.
  - by apply IH, IH.
  - by apply shr_1_nonneg.
Qed.

Lemma shr_fexp_nonneg m e l :
  0 <= m -> 0 <= shr_m (shr_fexp prec emax m e l).1.
Proof.
  intros Hm. unfold shr_fexp, shr.
  assert (0 <= shr_m (shr_record_of_loc m l)) as H0 by (by destruct l as [|[]]).
  destruct (fexp prec emax (Zdigits2 m + e) - e); simpl; [done| |done].
  by apply iter_pos_shr_1_nonneg.
Qed.

Lemma round_nearest_even_nonneg m l : 0 <= m -> 0 <= round_nearest_even m l.
Proof.
  intros Hm. destruct l as [|[]]; simpl; try lia. destruct (Z.even m); lia.
Qed.

Lemma binary_round_aux_nonneg mx ex lx :
  0 <= mx -> nonneg_number (binary_round_aux prec emax false mx ex lx).
Proof.
  intros Hm. unfold binary_round_aux.
  pose proof (shr_fexp_nonneg mx ex lx Hm) as H1.
  destruct (shr_fexp prec emax mx ex lx) as [mrs e']. simpl in H1.
  pose proof (shr_fexp_nonneg _ e' loc_Exact
                (round_nearest_even_nonneg _ (loc_of_shr_record mrs) H1)) as H2.
  destruct (shr_fexp prec emax _ e' loc_Exact) as [mrs' e'']. simpl in H2.
  destruct (shr_m mrs'); [done| |lia].
  by destruct (e'' <=? emax - prec).
Qed.

Lemma binary_round_nonneg m e : nonneg_number (binary_round prec emax false m e).
Proof.
  unfold binary_round. destruct (shl_align _ _ _). by apply binary_round_aux_nonneg.
Qed.

Lemma of_int_nonneg n : 0 <= n -> nonneg_number (of_int n).
Proof.
  intros Hn. destruct n as [|p|p]; [done| |lia]. apply binary_round_nonneg.
Qed.

Lemma exact_int_nonneg n : 0 <= n -> nonneg_number (exact_int n).
Proof. intros Hn. destruct n; [done..|lia]. Qed.

Lemma add_nonneg x y : nonneg_number x -> nonneg_number y -> nonneg_number (add x y).
Proof.
  destruct x as [[]|[]| |[] mx ex], y as [[]|[]| |[] my ey]; try done.
  intros _ _. unfold add, SFadd, cond_Zopp, binary_normalize.
  destruct (shl_align mx ex (Z.min ex ey)) as [mx' ex'], (shl_align my ey (Z.min ex ey)) as [my' ey'].
  simpl. apply binary_round_nonneg.
Qed.

Lemma div_core_nonneg m1 e1 m2 e2 :
  0 <= (SFdiv_core_binary prec emax (Z.pos m1) e1 (Z.pos m2) e2).1.1.
Proof.
  unfold SFdiv_core_binary.
  set (s := e1 - e2 - _). set (m' := match s with Z.pos _ => _ | _ => _ end).
  assert (0 <= m') as Hm'.
  { subst m'. destruct s; [lia| |lia]. by apply Z.shiftl_nonneg. }
  pose proof (Z.div_pos m' (Z.pos m2) Hm' ltac:(lia)) as Hq.
  unfold Z.div in Hq. by destruct (Z.div_eucl m' (Z.pos m2)).
Qed.

(** A finite positive number divided by a non-negative one. *)
Lemma div_finite_nonneg m e y :
  nonneg_number y -> nonneg_number (div (S754_finite false m e) y).
Proof.
  destruct y as [[]|[]| |[] my ey]; try done. intros _. unfold div, SFdiv.
  pose proof (div_core_nonneg m e my ey) as Hq.
  destruct (SFdiv_core_binary _ _ _ _ _ _) as [[mz ez] lz].
  by apply binary_round_aux_nonneg.
Qed.

Lemma div_exact_int_nonneg a b :
  0 <= a -> 0 < b -> nonneg_number (div (exact_int a) (exact_int b)).
Proof.
  intros Ha Hb. destruct b as [|q|q]; [lia| |lia]. destruct a as [|p|p]; [done| |lia].
  by apply div_finite_nonneg.
Qed.

Lemma sqrt_nonneg x : nonneg_number x -> nonneg_number (sqrt x).
Proof.
  destruct x as [[]|[]| |[] mx ex]; try done. intros _. unfold sqrt, SFsqrt.
  assert (0 <= (SFsqrt_core_binary prec emax (Z.pos mx) ex).1.1) as Hq.
  { unfold SFsqrt_core_binary.
    set (m' := match _ - _ with Z.pos _ => _ | _ => _ end).
    pose proof (Z.sqrtrem_sqrt m') as Hs. pose proof (Z.sqrt_nonneg m') as Hn.
    destruct (Z.sqrtrem m') as [q r]. simpl in *. lia. }
  destruct (SFsqrt_core_binary _ _ _ _) as [[mz ez] lz].
  by apply binary_round_aux_nonneg.
Qed.

Lemma pow3_nonneg x : nonneg_number x -> nonneg_number (pow3 x).
Proof.
  destruct x as [[]|[]| |[] mx ex]; try done. intros _. apply binary_round_nonneg.
Qed.

Lemma round3_nonneg x : nonneg_number x -> nonneg_number (round3 x).
Proof.
  destruct x as [[]|[]| |[] mx ex]; try done. intros _. unfold round3.
  destruct (round_half_even_milli mx ex); [done| |done].
  by apply div_finite_nonneg.
Qed.

Lemma one_finite : one = S754_finite false 4503599627370496 (-52).
Proof. reflexivity. Qed.

Lemma two_finite : two = S754_finite false 4503599627370496 (-51).
Proof. reflexivity. Qed.

Lemma od_set_Forall {K V} `{EqDecision K} (P : K * V -> Prop) k v (d : odict K V) :
  Forall P d -> (forall k', P (k', v)) -> Forall P (od_set k v d).
Proof.
  intros Hd Hv. induction Hd as [|[k0 v0] d H0 Hd IH]; simpl.
  - by constructor.
  - destruct (decide (k = k0)); constructor; auto.
Qed.

Lemma od_get_Forall {K V} `{EqDecision K} (P : K * V -> Prop) k v (d : odict K V) :
  Forall P d -> od_get k d = Some v -> P (k, v).
Proof.
  intros Hd Hg. apply od_get_elem_of in Hg. by eapply Forall_forall in Hd.
Qed.

Lemma iadd_nonneg k x indices :
  nonneg_indices indices -> k ∈ index_names -> nonneg_number x ->
  exists indices', iadd k x indices = Ok indices' /\ nonneg_indices indices'.
Proof.
  intros [Hk Hv] Hin Hx. unfold iadd, od_item.
  destruct (od_keys_get k indices) as [old Hold]; [by rewrite Hk|].
  rewrite Hold. simpl. eexists. split; [reflexivity|]. split.
  - rewrite od_keys_set_in; [done|]. by rewrite Hk.
  - apply od_set_Forall; [done|]. intros k'. simpl. apply add_nonneg; [|done].
    apply (od_get_Forall _ _ _ _ Hv Hold).
Qed.

Lemma iadd_int_nonneg k n indices :
  nonneg_indices indices -> k ∈ index_names -> 0 <= n ->
  exists indices', iadd_int k n indices = Ok indices' /\ nonneg_indices indices'.
Proof.
  intros Hi Hin Hn.
  destruct (iadd_nonneg k (of_int n) indices Hi Hin (of_int_nonneg n Hn)) as (ix & E & Hix).
  by exists ix.
Qed.

Ltac step_nonneg :=
  match goal with
  | G : nonneg_indices ?ix |- context [iadd ?k ?x ?ix] =>
      let ix' := fresh "ix" in
      let E := fresh "E" in
      let G' := fresh "G" in
      destruct (iadd_nonneg k x ix G) as (ix' & E & G');
      [by apply (bool_decide_unpack _)
      |first [ by apply div_finite_nonneg, of_int_nonneg; lia
             | by apply div_exact_int_nonneg; lia
             | by apply sqrt_nonneg, div_finite_nonneg, of_int_nonneg; lia
             | by apply pow3_nonneg, div_exact_int_nonneg; lia
             | by apply add_nonneg; apply div_exact_int_nonneg; lia ]
      |rewrite E, ?bind_Ok; clear E]
  | G : nonneg_indices ?ix |- context [iadd_int ?k ?n ?ix] =>
      let ix' := fresh "ix" in
      let E := fresh "E" in
      let G' := fresh "G" in
      destruct (iadd_int_nonneg k n ix G) as (ix' & E & G');
      [by apply (bool_decide_unpack _) | lia | rewrite E, ?bind_Ok; clear E]
  end.

Lemma edge_update_nonneg dx dy indices :
  1 <= dx -> 1 <= dy -> nonneg_indices indices ->
  exists indices', edge_update dx dy indices = Ok indices' /\ nonneg_indices indices'.
Proof.
  intros Hdx Hdy G. unfold edge_update.
  assert (1 <= dx * dy) as Hm by nia.
  assert (0 <= dx ^ 2 + dy ^ 2) as Hf by nia.
  assert (0 <= (dx + dy) ^ 2) as Hh by nia.
  rewrite !(bool_decide_eq_true_2 (dx * dy ≠ 0)) by lia.
  rewrite !(bool_decide_eq_true_2 (dx + dy ≠ 0)) by lia.
  rewrite !(bool_decide_eq_true_2 (dy ≠ 0)) by lia.
  rewrite !(bool_decide_eq_true_2 (dx ≠ 0)) by lia.
  rewrite !truediv_float_int_nonzero by lia.
  rewrite (truediv_int_int_nonzero _ (dx + dy)), (truediv_int_int_nonzero _ dy),
    (truediv_int_int_nonzero _ dx) by lia.
  rewrite one_finite, two_finite.
  do 6 step_nonneg.
  rewrite <-one_finite, math_sqrt_reciprocal, ?bind_Ok, one_finite by lia.
  do 2 step_nonneg.
  case_bool_decide as H2.
  - rewrite truediv_int_int_nonzero by lia. rewrite bind_Ok.
    do 2 step_nonneg. by eexists.
  - rewrite ?bind_Ok. step_nonneg. by eexists.
Qed.

Lemma for_edges_nonneg G es indices :
  (forall x y, (x, y) ∈ es ->
     exists dx dy, degree G x = Ok dx /\ degree G y = Ok dy /\ 1 <= dx /\ 1 <= dy) ->
  nonneg_indices indices ->
  exists indices', for_edges G indices es = Ok indices' /\ nonneg_indices indices'.
Proof.
  revert indices. induction es as [|[x y] es IH]; intros indices Hdeg K; simpl.
  - by eexists.
  - destruct (Hdeg x y) as (dx & dy & -> & -> & Hdx & Hdy); [apply list_elem_of_here|].
    rewrite !bind_Ok.
    destruct (edge_update_nonneg dx dy indices) as (ix & -> & K'); [done..|].
    rewrite bind_Ok. apply IH; [|done].
    intros x' y' Hin. apply Hdeg. by apply list_elem_of_further.
Qed.

Lemma initial_indices_nonneg : nonneg_indices initial_indices.
Proof. split; [done|]. repeat constructor. Qed.

Lemma round_items_nonneg raw : nonneg_indices raw -> nonneg_indices (round_items raw).
Proof.
  intros [Hk Hv]. split; [by rewrite od_keys_round_items|].
  unfold round_items. apply Forall_fmap. eapply Forall_impl; [done|].
  intros [k v]. simpl. apply round3_nonneg.
Qed.

(** X9.  For every edge list [calculate_indices] returns exactly the ten
    keys, in their fixed order, and every value is a non-negative number:
    never NaN and never negative.  The same holds for the rounded values of
    every success record of a batch. *)
Theorem X9_indices_are_nonneg_numbers :
  (forall es, exists indices,
      calculate_indices (build es) = Ok indices
      /\ od_keys indices = index_names
      /\ Forall (fun kv => nonneg_number kv.2) indices)
  /\ (forall drug_list data report r,
        calculate_and_return_all_drugs drug_list data = Ok report ->
        r ∈ report -> has_indices r = true ->
        od_keys (indices_of r) = index_names
        /\ Forall (fun kv => nonneg_number kv.2) (indices_of r)).
Proof.
  assert (forall es, exists indices,
             calculate_indices (build es) = Ok indices /\ nonneg_indices indices) as Hcalc.
  { intros es. apply for_edges_nonneg; [|apply initial_indices_nonneg].
    intros x y. apply edges_build_degrees. }
  split.
  - intros es. destruct (Hcalc es) as (indices & H & Hk & Hv). by exists indices.
  - intros drug_list data report r Hr Hin Hs.
    destruct (calculate_and_return_all_drugs_returns drug_list data)
      as (report' & Hr' & _ & Hm).
    assert (report' = report) as -> by congruence.
    eapply Forall_forall in Hm; [|done]. unfold record_matches in Hm.
    destruct (data !! drug r) as [[es|marker]|].
    + destruct Hm as (raw & Hraw & _ & ->). simpl.
      destruct (Hcalc es) as (raw' & Hraw' & Hnn).
      assert (raw' = raw) as -> by congruence.
      by apply round_items_nonneg.
    + by rewrite Hm in Hs.
    + by rewrite Hm in Hs.
Qed.

Lemma X9_indices_are_nonneg_numbers_witness :
  od_keys (round_items
             [("M1", of_int 6); ("M2", of_int 4); ("mM2", of_int 1);
              ("FG", of_int 10); ("ISI", lit 4 3); ("H", lit 4 3);
              ("SC", add (sqrt (lit 1 3)) (sqrt (lit 1 3))); ("HM", of_int 18);
              ("A", of_int 16); ("SDD", of_int 5)]) = index_names
  /\ Forall (fun kv => nonneg_number kv.2)
            (round_items
               [("M1", of_int 6); ("M2", of_int 4); ("mM2", of_int 1);
                ("FG", of_int 10); ("ISI", lit 4 3); ("H", lit 4 3);
                ("SC", add (sqrt (lit 1 3)) (sqrt (lit 1 3))); ("HM", of_int 18);
                ("A", of_int 16); ("SDD", of_int 5)]).
Proof.
  apply (proj2 X9_indices_are_nonneg_numbers ["zanubrutinib"; "afatinib"] example_data
           [Failure "afatinib" (Some [("error", "edge relations not found")]);
            Success "zanubrutinib"
              (round_items
                 [("M1", of_int 6); ("M2", of_int 4); ("mM2", of_int 1);
                  ("FG", of_int 10); ("ISI", lit 4 3); ("H", lit 4 3);
                  ("SC", add (sqrt (lit 1 3)) (sqrt (lit 1 3))); ("HM", of_int 18);
                  ("A", of_int 16); ("SDD", of_int 5)])]
           (Success "zanubrutinib"
              (round_items
                 [("M1", of_int 6); ("M2", of_int 4); ("mM2", of_int 1);
                  ("FG", of_int 10); ("ISI", lit 4 3); ("H", lit 4 3);
                  ("SC", add (sqrt (lit 1 3)) (sqrt (lit 1 3))); ("HM", of_int 18);
                  ("A", of_int 16); ("SDD", of_int 5)]))).
  - vm_compute. reflexivity.
  - apply list_elem_of_further, list_elem_of_here.
  - reflexivity.
Defined.

(** ** Renaming the nodes *)

Section renaming.
Context (f : node -> node) `{!Inj (=) (=) f}.

Lemma rename_get n a : od_get (f n) (rename_adj f a) = fmap (M:=list) f <$> od_get n a.
Proof.
  induction a as [|[k nb] a IH]; simpl; [done|].
  destruct (decide (n = k)) as [->|Hne].
  - by rewrite decide_True.
  - rewrite decide_False; [done|]. by intros ?%(inj f).
Qed.

Lemma rename_keys a : od_keys (rename_adj f a) = f <$> od_keys a.
Proof.
  unfold rename_adj, od_keys. rewrite <-!list_fmap_compose. by apply list_fmap_ext.
Qed.

Lemma rename_elem_of (n : node) (l : list node) : f n ∈ f <$> l <-> n ∈ l.
Proof.
  rewrite list_elem_of_fmap. split.
  - by intros (m & ->%(inj f) & Hm).
  - intros Hn. by exists n.
Qed.

Lemma rename_set k v a : od_set (f k) (f <$> v) (rename_adj f a) = rename_adj f (od_set k v a).
Proof.
  induction a as [|[k0 v0] a IH]; simpl; [done|].
  destruct (decide (k = k0)) as [->|Hne].
  - by rewrite decide_True.
  - rewrite decide_False by (by intros ?%(inj f)). simpl. f_equal. apply IH.
Qed.

Lemma rename_add_node n a : add_node (f n) (rename_adj f a) = rename_adj f (add_node n a).
Proof.
  unfold add_node, od_mem. rewrite rename_keys.
  rewrite (bool_decide_ext _ _ (rename_elem_of n (od_keys a))).
  case_bool_decide; [done|]. apply (rename_set n []).
Qed.

Lemma rename_key_set v nbrs : key_set (f v) (f <$> nbrs) = f <$> key_set v nbrs.
Proof.
  unfold key_set. rewrite (bool_decide_ext _ _ (rename_elem_of v nbrs)).
  case_bool_decide; [done|]. by rewrite fmap_app.
Qed.

Lemma rename_add_nbr u v a : add_nbr (f u) (f v) (rename_adj f a) = rename_adj f (add_nbr u v a).
Proof.
  unfold add_nbr. rewrite rename_get. destruct (od_get u a) as [nb|]; simpl; [|done].
  rewrite rename_key_set. apply rename_set.
Qed.

Lemma rename_add_edges_from es a :
  adj (add_edges_from {| adj := rename_adj f a |} (prod_map f f <$> es))
  = rename_adj f (adj (add_edges_from {| adj := a |} es)).
Proof.
  revert a. induction es as [|[u v] es IH]; intros a; [done|].
  rewrite fmap_cons, !add_edges_from_cons. cbn [prod_map fst snd].
  rewrite !add_edge_adj, !rename_add_node, !rename_add_nbr. apply IH.
Qed.

Lemma rename_build es : adj (build (prod_map f f <$> es)) = rename_adj f (adj (build es)).
Proof. apply (rename_add_edges_from es []). Qed.

Lemma rename_filter (seen nbrs : list node) :
  filter (fun nbr => nbr ∉ f <$> seen) (f <$> nbrs)
  = f <$> filter (fun nbr => nbr ∉ seen) nbrs.
Proof.
  induction nbrs as [|x nbrs IH]; [done|].
  rewrite fmap_cons, !filter_cons, IH.
  destruct (decide (x ∉ seen)) as [Hx|Hx].
  - rewrite decide_True; [done|]. by rewrite rename_elem_of.
  - rewrite decide_False; [done|]. by rewrite rename_elem_of.
Qed.

Lemma rename_edges_from seen a :
  edges_from (f <$> seen) (rename_adj f a) = prod_map f f <$> edges_from seen a.
Proof.
  revert seen. induction a as [|[n nb] a IH]; intros seen; [done|].
  cbn [rename_adj fmap list_fmap edges_from fst snd]. rewrite fmap_app. f_equal.
  - rewrite rename_filter, <-!list_fmap_compose. by apply list_fmap_ext.
  - rewrite <-IH. by rewrite fmap_cons.
Qed.

Lemma rename_edges a :
  edges_from [] (rename_adj f a) = prod_map f f <$> edges_from [] a.
Proof. exact (rename_edges_from [] a). Qed.

Lemma rename_degree G G' n :
  adj G' = rename_adj f (adj G) -> degree G' (f n) = degree G n.
Proof.
  intros Ha. unfold degree, od_item. rewrite Ha, rename_get.
  destruct (od_get n (adj G)) as [nb|]; simpl; [|done].
  by rewrite length_fmap, (bool_decide_ext _ _ (rename_elem_of n nb)).
Qed.

Lemma rename_for_edges G G' indices es :
  adj G' = rename_adj f (adj G) ->
  for_edges G' indices (prod_map f f <$> es) = for_edges G indices es.
Proof.
  intros Ha. revert indices. induction es as [|[x y] es IH]; intros indices; [done|].
  rewrite fmap_cons. cbn [for_edges edge_step prod_map fst snd].
  rewrite !(rename_degree G G') by done.
  destruct (degree G x) as [dx|]; [|done]. destruct (degree G y) as [dy|]; [|done].
  rewrite !bind_Ok. destruct (edge_update dx dy indices); [|done].
  rewrite !bind_Ok. apply IH.
Qed.

Lemma rename_calculate_indices es :
  calculate_indices (build (prod_map f f <$> es)) = calculate_indices (build es).
Proof.
  unfold calculate_indices, edges. rewrite rename_build.
  rewrite rename_edges.
  apply rename_for_edges, rename_build.
Qed.
End renaming.

(** X10.  Renumbering the atoms changes no index: for an injective renaming
    of the nodes, applied to every entry of the edge list, the degrees are
    those of the renamed nodes and [calculate_indices] returns the very same
    dictionary, equal value for value. *)
Theorem X10_renaming_invariant (f : node -> node) (es : list (node * node)) :
  Inj (=) (=) f ->
  (forall n, degree (build (prod_map f f <$> es)) (f n) = degree (build es) n)
  /\ edges (build (prod_map f f <$> es)) = prod_map f f <$> edges (build es)
  /\ calculate_indices (build (prod_map f f <$> es)) = calculate_indices (build es).
Proof.
  intros Hf. split_and!.
  - intros n. apply (rename_degree f). apply (rename_build f).
  - unfold edges. rewrite (rename_build f). apply (rename_edges f).
  - apply (rename_calculate_indices f).
Qed.

Lemma X10_renaming_invariant_witness :
  calculate_indices (build (prod_map (Z.add 10) (Z.add 10) <$> [(0, 1); (1, 2); (1, 3)]))
  = calculate_indices (build [(0, 1); (1, 2); (1, 3)]).
Proof.
  apply (X10_renaming_invariant (Z.add 10) [(0, 1); (1, 2); (1, 3)]).
  intros x y Hxy. lia.
Defined.

(** ** The batch and the stored document *)

Lemma for_names_agree data data' names results :
  (forall name, name ∈ names -> data !! name = data' !! name) ->
  for_names data results names = for_names data' results names.
Proof.
  revert results. induction names as [|name names IH]; intros results Hag; [done|].
  cbn [for_names].
  assert (drug_record data name = drug_record data' name) as ->.
  { unfold drug_record. by rewrite (Hag name) by apply list_elem_of_here. }
  destruct (drug_record data' name) as [r|]; [|done].
  rewrite !bind_Ok. apply IH. intros n Hn. apply Hag. by apply list_elem_of_further.
Qed.

(** X11.  Only the entries of the listed names matter: two documents that
    agree on every name of the list give the same report, whatever else they
    hold. *)
Theorem X11_only_listed_entries_matter (drug_list : list string)
    (data data' : gmap string entry) :
  (forall name, name ∈ drug_list -> data !! name = data' !! name) ->
  calculate_and_return_all_drugs drug_list data
  = calculate_and_return_all_drugs drug_list data'.
Proof.
  intros Hag. apply for_names_agree. intros name Hn. apply Hag.
  by rewrite <-(sorted_Permutation drug_list).
Qed.

Lemma X11_only_listed_entries_matter_witness :
  calculate_and_return_all_drugs ["zanubrutinib"] example_data
  = calculate_and_return_all_drugs ["zanubrutinib"]
      (<["busulfan" := EdgeList [(0, 1)]]> (delete "afatinib" example_data)).
Proof.
  apply (X11_only_listed_entries_matter ["zanubrutinib"]).
  intros name Hn. apply list_elem_of_singleton in Hn as ->. reflexivity.
Defined.

(** X12.  When the batch runs on the document built from the lookups of its
    own name list, as the main script does, it returns one record per name,
    and every record either holds indices or is the failure carrying the
    marker "edge relations not found": no record carries [None], because no
    name is missing from the document. *)
Theorem X12_batch_on_stored_document
    (lookups : list (string * option (list (node * node)))) :
  exists report,
    calculate_and_return_all_drugs lookups.*1 (edge_relations_of lookups) = Ok report
    /\ drug <$> report ≡ₚ lookups.*1
    /\ Forall (fun r => has_indices r = true \/ r = Failure (drug r) (Some not_found))
              report.
Proof.
  destruct (calculate_and_return_all_drugs_returns lookups.*1 (edge_relations_of lookups))
    as (report & Hr & Hd & Hm).
  exists report. split_and!; [done| |].
  - rewrite Hd. apply sorted_Permutation.
  - apply Forall_forall. intros r Hin.
    pose proof (proj1 (Forall_forall _ _) Hm r Hin) as Hrm. unfold record_matches in Hrm.
    assert (drug r ∈ lookups.*1) as Hn.
    { rewrite <-(sorted_Permutation lookups.*1), <-Hd. by apply list_elem_of_fmap_2. }
    apply (proj1 (lookups_stored lookups)) in Hn as [e He].
    rewrite He in Hrm.
    destruct (proj2 (proj2 (lookups_stored lookups)) _ _ He) as [->|[es ->]].
    + by right.
    + left. destruct Hrm as (raw & _ & _ & ->). done.
Qed.

(** X13.  A molecule stored with the empty edge list is a success, not a
    failure: its record holds the ten indices, all [0.0]. *)
Theorem X13_empty_edge_list_record (drug_list : list string) (data : gmap string entry)
    (name : string) :
  name ∈ drug_list ->
  data !! name = Some (EdgeList []) ->
  exists report,
    calculate_and_return_all_drugs drug_list data = Ok report
    /\ Success name ((fun k => (k, zero)) <$> index_names) ∈ report.
Proof.
  intros Hin Hd.
  destruct (calculate_and_return_all_drugs_returns drug_list data) as (report & Hr & _).
  exists report. split; [done|].
  destruct (report_lookup _ _ _ _ Hr Hin) as (r & Hrin & <- & Hm).
  unfold record_matches in Hm. rewrite Hd in Hm.
  destruct Hm as (raw & Hraw & _ & Heq). injection Hraw as <-.
  by rewrite Heq in Hrin.
Qed.

Lemma X13_empty_edge_list_record_witness :
  exists report,
    calculate_and_return_all_drugs ["busulfan"] {[ "busulfan" := EdgeList [] ]} = Ok report
    /\ Success "busulfan" ((fun k => (k, zero)) <$> index_names) ∈ report.
Proof.
  apply (X13_empty_edge_list_record ["busulfan"] {[ "busulfan" := EdgeList [] ]} "busulfan").
  - apply list_elem_of_here.
  - reflexivity.
Defined.

(** ** The shape of the table *)

Lemma first_seen_fold cols ks :
  NoDup cols ->
  NoDup (foldl first_seen cols ks)
  /\ forall c, c ∈ foldl first_seen cols ks <-> c ∈ cols \/ c ∈ ks.
Proof.
  revert cols. induction ks as [|k ks IH]; intros cols Hnd; cbn [foldl].
  - split; [done|]. intros c. rewrite elem_of_nil. tauto.
  - assert (NoDup (first_seen cols k)) as Hnd'.
    { unfold first_seen. case_bool_decide as Hk; [done|].
      apply NoDup_app. split_and!; [done| |apply NoDup_singleton].
      by intros x Hx ->%list_elem_of_singleton. }
    destruct (IH _ Hnd') as [H1 H2]. split; [done|].
    intros c. rewrite H2, elem_of_cons. unfold first_seen.
    case_bool_decide as Hk.
    + split; [tauto|]. intros [?|[->|?]]; tauto.
    + rewrite elem_of_app, list_elem_of_singleton. tauto.
Qed.

(** X14.  The table is always well formed, whatever records it is given: it
    has as many rows as labels, every row has one cell per column, no column
    is repeated, and the columns are exactly the keys that occur in the
    indices of some success record. *)
Theorem X14_table_shape (results : list MoleculeRecord) :
  let df := save_results_to_dataframe results in
  length (df_values df) = length (df_index df)
  /\ Forall (fun row => length row = length (df_columns df)) (df_values df)
  /\ NoDup (df_columns df)
  /\ forall c, c ∈ df_columns df <->
               exists r, r ∈ results /\ has_indices r = true /\ c ∈ od_keys (indices_of r).
Proof.
  intros df. subst df. unfold save_results_to_dataframe, make_frame, frame_columns.
  cbn [df_index df_values df_columns].
  set (valid := filter (fun r => has_indices r = true) results).
  destruct (first_seen_fold [] ((indices_of <$> valid) ≫= od_keys) (NoDup_nil_2))
    as [Hnd Hin].
  split_and!.
  - by rewrite !length_fmap.
  - apply Forall_fmap, Forall_forall. intros row _. unfold frame_row. simpl.
    by rewrite length_fmap.
  - done.
  - intros c. rewrite Hin, elem_of_nil, list_elem_of_bind. split.
    + intros [[]|(ix & Hc & (r & -> & [Hs Hr]%list_elem_of_filter)%list_elem_of_fmap)].
      by exists r.
    + intros (r & Hr & Hs & Hc). right. exists (indices_of r). split; [done|].
      apply list_elem_of_fmap_2. by apply list_elem_of_filter.
Qed.

(** ** Isolated bonds and the index A *)

Lemma bind_Ok_inv {A B} (c : result A) (f : A -> result B) b :
  c ≫= f = Ok b -> exists a, c = Ok a /\ f a = Ok b.
Proof. destruct c as [a|e]; [by exists a | done]. Qed.

Lemma iadd_get_other k k' x indices indices' :
  iadd k x indices = Ok indices' -> k' ≠ k -> od_get k' indices' = od_get k' indices.
Proof.
  unfold iadd. intros (old & _ & [= <-])%bind_Ok_inv Hne. by apply od_get_set_ne.
Qed.

Lemma iadd_int_get_other k k' n indices indices' :
  iadd_int k n indices = Ok indices' -> k' ≠ k -> od_get k' indices' = od_get k' indices.
Proof.
  unfold iadd_int. intros (old & _ & [= <-])%bind_Ok_inv Hne. by apply od_get_set_ne.
Qed.

(** An edge with [sum_deg = 2] leaves A as it was. *)
Lemma edge_update_A_skipped dx dy indices indices' :
  dx + dy = 2 ->
  edge_update dx dy indices = Ok indices' ->
  od_get "A" indices' = od_get "A" indices.
Proof.
  intros Hs. unfold edge_update. rewrite (bool_decide_eq_false_2 (dx + dy ≠ 2)) by lia.
  intros (i1 & H1 & H)%bind_Ok_inv.
  apply bind_Ok_inv in H as (i2 & H2 & H).
  apply bind_Ok_inv in H as (t3 & _ & H).
  apply bind_Ok_inv in H as (i3 & H3 & H).
  apply bind_Ok_inv in H as (i4 & H4 & H).
  apply bind_Ok_inv in H as (t5 & _ & H).
  apply bind_Ok_inv in H as (i5 & H5 & H).
  apply bind_Ok_inv in H as (t6 & _ & H).
  apply bind_Ok_inv in H as (i6 & H6 & H).
  apply bind_Ok_inv in H as (t7 & _ & H).
  apply bind_Ok_inv in H as (i7 & H7 & H).
  apply bind_Ok_inv in H as (i8 & H8 & H).
  apply bind_Ok_inv in H as (i9 & [= <-] & H).
  apply bind_Ok_inv in H as (t1 & _ & H).
  apply bind_Ok_inv in H as (t2 & _ & H9).
  rewrite (iadd_get_other _ _ _ _ _ H9) by done.
  rewrite (iadd_int_get_other _ _ _ _ _ H8) by done.
  rewrite (iadd_get_other _ _ _ _ _ H7) by done.
  rewrite (iadd_get_other _ _ _ _ _ H6) by done.
  rewrite (iadd_get_other _ _ _ _ _ H5) by done.
  rewrite (iadd_int_get_other _ _ _ _ _ H4) by done.
  rewrite (iadd_get_other _ _ _ _ _ H3) by done.
  rewrite (iadd_int_get_other _ _ _ _ _ H2) by done.
  by rewrite (iadd_int_get_other _ _ _ _ _ H1) by done.
Qed.

Lemma for_edges_A_skipped G es indices indices' :
  (forall x y, (x, y) ∈ es -> degree G x = Ok 1 /\ degree G y = Ok 1) ->
  for_edges G indices es = Ok indices' ->
  od_get "A" indices' = od_get "A" indices.
Proof.
  revert indices. induction es as [|[x y] es IH]; intros indices Hdeg; cbn [for_edges].
  - by intros [= ->].
  - destruct (Hdeg x y) as [Hx Hy]; [apply list_elem_of_here|].
    cbn [edge_step]. rewrite Hx, Hy, !bind_Ok.
    intros (ix & Hup & Hrest)%bind_Ok_inv.
    rewrite (IH ix); [by apply (edge_update_A_skipped 1 1)| |done].
    intros x' y' Hin. apply Hdeg. by apply list_elem_of_further.
Qed.

(** X15.  When no node of the list is joined to two different nodes or to
    itself, so that every endpoint has degree 1 and the graph is a set of
    isolated bonds, every edge is skipped for A and the returned A is
    exactly [0.0], however many edges there are. *)
Theorem X15_isolated_bonds_A_zero (es : list (node * node)) :
  (forall n, endpoint n es -> degree (build es) n = Ok 1) ->
  exists indices,
    calculate_indices (build es) = Ok indices /\ od_get "A" indices = Some zero.
Proof.
  intros Hdeg. destruct (calculate_indices_build_returns es) as (indices & Hr & _).
  exists indices. split; [done|].
  unfold calculate_indices in Hr.
  rewrite (for_edges_A_skipped (build es) (edges (build es)) initial_indices indices);
    [done| |done].
  intros x y Hxy. apply edges_adjacent in Hxy; [|apply adj_nodup_build].
  apply adjacent_build in Hxy.
  split; apply Hdeg; destruct Hxy as [Hxy|Hxy]; exists (x, y) + exists (y, x);
    (split; [done|]); simpl; tauto.
Qed.

Lemma X15_isolated_bonds_A_zero_witness :
  exists indices,
    calculate_indices (build [(0, 1); (3, 2); (0, 1)]) = Ok indices
    /\ od_get "A" indices = Some zero.
Proof.
  apply (X15_isolated_bonds_A_zero [(0, 1); (3, 2); (0, 1)]).
  intros n (e & He & Hn).
  repeat (apply elem_of_cons in He as [-> | He];
          [destruct Hn as [-> | ->]; reflexivity|]).
  by apply elem_of_nil in He.
Defined.

(** ** How many edges are visited *)

Lemma edges_not_both G x y : x ≠ y -> (x, y) ∈ edges G -> (y, x) ∉ edges G.
Proof.
  intros Hne Hxy Hyx. unfold edges in *.
  apply elem_of_edges_from_iff in Hxy as (a1 & nbx & a2 & Ha & _ & _ & Hy).
  apply elem_of_edges_from_iff in Hyx as (b1 & nby & b2 & Hb & _ & _ & Hx).
  rewrite Ha in Hb.
  pose proof (entries_not_before_each_other _ _ _ _ _ _ Hb Hy Hx) as Heq.
  congruence.
Qed.

Lemma NoDup_edges_build es : NoDup (edges (build es)).
Proof.
  destruct (adj_nodup_build es) as [Hk Hn].
  apply NoDup_edges_from; [done|]. apply Forall_forall. intros [n nb] Hin.
  apply (Hn n). by apply od_elem_of_get.
Qed.

(** X16.  [calculate_indices] never visits more edges than the list has
    entries: repeated pairs are visited once. *)
Theorem X16_visited_edges_bound (es : list (node * node)) :
  (length (edges (build es)) <= length es)%nat.
Proof.
  set (g := fun e : node * node => if bool_decide (e ∈ es) then e else (e.2, e.1)).
  assert (forall e, e ∈ edges (build es) -> g e ∈ es) as Hg.
  { intros [x y] Hin. apply edges_adjacent in Hin; [|apply adj_nodup_build].
    apply adjacent_build in Hin. unfold g. case_bool_decide; [done|]. simpl. tauto. }
  rewrite <-(length_fmap g). apply submseteq_length, NoDup_submseteq.
  - apply NoDup_fmap_2_strong; [|apply NoDup_edges_build].
    intros [x1 y1] [x2 y2] H1 H2. unfold g.
    case_bool_decide as Hin1; case_bool_decide as Hin2; simpl; try done.
    + intros [= -> ->]. destruct (decide (x2 = y2)) as [->|Hne]; [done|].
      by destruct (edges_not_both _ _ _ Hne H2).
    + intros [= -> ->]. destruct (decide (x2 = y2)) as [->|Hne]; [done|].
      by destruct (edges_not_both _ _ _ Hne H2).
    + by intros [= -> ->].
  - intros e (e' & -> & He')%list_elem_of_fmap. by apply Hg.
Qed.
